(** * GenLock: gesture/voice triggered workstation lock

    A shallow embedding of the core of [genlock.py] (gesture stabilizer,
    voice trigger matching, action queue, lock controller, main loop) and of
    the single-instance / control-socket block of [genlock_app.py], with the
    properties the specification states about them.

    Conventions of the embedding:
    - wall-clock readings ([time.time()]) and the second-valued constants
      are rationals ([Q]); a clock reading is an input of the step that
      reads it;
    - Python [str] values are [string]s, one [ascii] per code point (code
      points below 256), with [str.lower] and [str.strip] written out on
      that range;
    - a Python exception is a [Raise] result; [sys.exit] is an [Exit]
      outcome carrying the exit code;
    - console output, text-to-speech, sleeping, subprocesses, sockets and
      thread starts are recorded as a trace of [event]s. *)

From Stdlib Require Import ZArith QArith Qround Floats Lia Lqa Ascii String DecimalString.
From stdpp Require Import base list strings gmap.

Local Open Scope Z_scope.

(** ** Results of fallible code *)

Inductive exn : Type :=
| TypeError      (* arithmetic on [None] *)
| OSError.       (* socket and subprocess failures *)

Inductive result (A : Type) : Type :=
| Ok (a : A)
| Raise (e : exn).
Arguments Ok {A} a.
Arguments Raise {A} e.

(** ** Configuration ([genlock.py], lines 16-20) *)

Definition LOCK_HOLD_SECONDS : Q := 9 # 10.
Definition GESTURE_FRAME_WINDOW : Z := 10.
Definition CONFIRM_COUNTDOWN : Z := 3.
Definition DEBOUNCE_SECONDS : Q := 3 # 1.

(** ** Gesture stabilizer ([main], lines 168-170 and 198-220) *)

Module Stabilizer.

Record state : Type := {
  frame_history : list bool;
  gesture_start_time : option Q;
  last_gesture_state : bool
}.

(** Lines 168-170. *)
Definition init : state :=
  {| frame_history := []; gesture_start_time := None;
     last_gesture_state := false |}.

(** One video frame as the stabilizer sees it: the classifier's boolean and
    the value [time.time()] returns if the frame reads the clock. *)
Record frame : Type := { gesture_detected : bool; now : Q }.

(** What one frame produced: the window the verdict was computed on, the
    verdict [stable] (shown in the status text), and whether
    [("gesture", "fist")] was put on the action queue. *)
Record frame_out : Type := { window : list bool; stable : bool; emitted : bool }.

(** Lines 199-201: append, then drop the head when the list got longer
    than the window. *)
Definition append_evict (fh : list bool) (g : bool) : list bool :=
  let fh1 := fh ++ [g] in
  if GESTURE_FRAME_WINDOW <? Z.of_nat (length fh1) then tail fh1 else fh1.

(** Line 203: [sum(frame_history)], [True] counting 1. *)
Fixpoint votes (fh : list bool) : Z :=
  match fh with
  | [] => 0
  | b :: fh' => (if b then 1 else 0) + votes fh'
  end.

(** Line 204: [votes >= GESTURE_FRAME_WINDOW * 0.7], in exact arithmetic. *)
Definition stable_of (fh : list bool) : bool :=
  Qle_bool (inject_Z GESTURE_FRAME_WINDOW * (7 # 10)) (inject_Z (votes fh)).

(** Line 204 as the interpreter evaluates it: the product is a binary64
    multiplication by the double nearest to 0.7, and the integer [votes] is
    compared with that double. *)
Definition float_07 : float := 0x1.6666666666666p-1%float.

Definition stable_float (fh : list bool) : bool :=
  PrimFloat.leb
    (PrimFloat.mul (PrimFloat.of_uint63 (Uint63.of_Z GESTURE_FRAME_WINDOW)) float_07)
    (PrimFloat.of_uint63 (Uint63.of_Z (votes fh))).

(** The specification's threshold: [ceil(0.7 * W)]. *)
Definition spec_threshold : Z := Qceiling ((7 # 10) * inject_Z GESTURE_FRAME_WINDOW).

Definition spec_stable (fh : list bool) : bool := spec_threshold <=? votes fh.

(** Lines 199-220 for one frame. *)
Definition gesture_step (s : state) (f : frame) : result (state * frame_out) :=
  let fh := append_evict (frame_history s) (gesture_detected f) in
  let st := stable_of fh in
  if st && negb (last_gesture_state s) then
    Ok ({| frame_history := fh; gesture_start_time := Some (now f);
           last_gesture_state := true |},
        {| window := fh; stable := st; emitted := false |})
  else if st && last_gesture_state s then
    match gesture_start_time s with
    | None => Raise TypeError
    | Some t0 =>
        if Qle_bool LOCK_HOLD_SECONDS (now f - t0) then
          Ok ({| frame_history := []; gesture_start_time := Some t0;
                 last_gesture_state := false |},
              {| window := fh; stable := st; emitted := true |})
        else
          Ok ({| frame_history := fh; gesture_start_time := Some t0;
                 last_gesture_state := true |},
              {| window := fh; stable := st; emitted := false |})
    end
  else if negb st then
    Ok ({| frame_history := fh; gesture_start_time := None;
           last_gesture_state := false |},
        {| window := fh; stable := st; emitted := false |})
  else
    Ok ({| frame_history := fh; gesture_start_time := gesture_start_time s;
           last_gesture_state := last_gesture_state s |},
        {| window := fh; stable := st; emitted := false |}).

(** The stabilizer over a sequence of frames, with the per-frame log. *)
Fixpoint run (s : state) (fs : list frame) : result (state * list frame_out) :=
  match fs with
  | [] => Ok (s, [])
  | f :: fs' =>
      match gesture_step s f with
      | Raise e => Raise e
      | Ok (s1, o) =>
          match run s1 fs' with
          | Raise e => Raise e
          | Ok (s2, os) => Ok (s2, o :: os)
          end
      end
  end.

Definition signals (fs : list frame) : list bool := map gesture_detected fs.

(** The last at most [W] entries of a sequence. *)
Definition last_window (l : list bool) : list bool :=
  drop (length l - Z.to_nat GESTURE_FRAME_WINDOW)%nat l.

(** Reading the log and the input at a frame index. *)
Definition stable_at (log : list frame_out) (i : nat) : Prop :=
  exists o, log !! i = Some o /\ stable o = true.

Definition unstable_at (log : list frame_out) (i : nat) : Prop :=
  exists o, log !! i = Some o /\ stable o = false.

Definition emitted_at (log : list frame_out) (i : nat) : Prop :=
  exists o, log !! i = Some o /\ emitted o = true.

Definition clock_at (fs : list frame) (i : nat) (t : Q) : Prop :=
  exists f, fs !! i = Some f /\ now f = t.

(** The four ways lines 207-220 can go, as a relation between the state
    before, the window of the frame, the state after and the log entry. *)
Inductive step_case (s : state) (f : frame) (fh : list bool) : state -> frame_out -> Prop :=
| case_start :
    stable_of fh = true -> last_gesture_state s = false ->
    step_case s f fh
      {| frame_history := fh; gesture_start_time := Some (now f);
         last_gesture_state := true |}
      {| window := fh; stable := true; emitted := false |}
| case_emit t0 :
    stable_of fh = true -> last_gesture_state s = true ->
    gesture_start_time s = Some t0 ->
    Qle_bool LOCK_HOLD_SECONDS (now f - t0) = true ->
    step_case s f fh
      {| frame_history := []; gesture_start_time := Some t0;
         last_gesture_state := false |}
      {| window := fh; stable := true; emitted := true |}
| case_hold t0 :
    stable_of fh = true -> last_gesture_state s = true ->
    gesture_start_time s = Some t0 ->
    Qle_bool LOCK_HOLD_SECONDS (now f - t0) = false ->
    step_case s f fh
      {| frame_history := fh; gesture_start_time := Some t0;
         last_gesture_state := true |}
      {| window := fh; stable := true; emitted := false |}
| case_unstable :
    stable_of fh = false ->
    step_case s f fh
      {| frame_history := fh; gesture_start_time := None;
         last_gesture_state := false |}
      {| window := fh; stable := false; emitted := false |}.

(** Sixteen frames, ten per second, the fist closed on every one. *)
Definition steady_fist : list frame :=
  map (fun i => {| gesture_detected := true; now := Z.of_nat i # 10 |}) (seq 0 16).

(** The hold state of the specification: IDLE is [last_gesture_state = false]. *)
Definition idle (s : state) : Prop := last_gesture_state s = false.

(** The state never has [last_gesture_state] set without a start time, so
    line 212 never subtracts [None]. *)
Definition well_formed (s : state) : Prop :=
  last_gesture_state s = true -> exists t0, gesture_start_time s = Some t0.

End Stabilizer.

(** ** Python strings on code points below 256 *)

Module PyStr.
Local Open Scope string_scope.
Local Open Scope N_scope.

(** [str.isspace] for one character: TAB..CR, FS..US, SPACE, NEL, NBSP. *)
Definition isspace (c : ascii) : bool :=
  let n := N_of_ascii c in
  ((9 <=? n) && (n <=? 13)) || ((28 <=? n) && (n <=? 31))
  || (n =? 32) || (n =? 133) || (n =? 160).

(** [str.lower] for one character: A..Z and the Latin-1 capitals
    (0xC0..0xDE without the multiplication sign 0xD7) move up by 32. *)
Definition lower_char (c : ascii) : ascii :=
  let n := N_of_ascii c in
  if ((65 <=? n) && (n <=? 90)) || ((192 <=? n) && (n <=? 222) && negb (n =? 215))
  then ascii_of_N (n + 32) else c.

Fixpoint lower (s : string) : string :=
  match s with
  | EmptyString => EmptyString
  | String c s' => String (lower_char c) (lower s')
  end.

Fixpoint lstrip (s : string) : string :=
  match s with
  | EmptyString => EmptyString
  | String c s' => if isspace c then lstrip s' else s
  end.

Fixpoint rstrip (s : string) : string :=
  match s with
  | EmptyString => EmptyString
  | String c s' =>
      match rstrip s' with
      | EmptyString => if isspace c then EmptyString else String c EmptyString
      | r => String c r
      end
  end.

(** [str.strip()] without arguments. *)
Definition strip (s : string) : string := rstrip (lstrip s).

(** [text.startswith(phrase)] *)
Fixpoint startswith (phrase text : string) : bool :=
  match phrase, text with
  | EmptyString, _ => true
  | String _ _, EmptyString => false
  | String a phrase', String b text' => Ascii.eqb a b && startswith phrase' text'
  end.

(** [phrase in text]: [phrase] starts at some position of [text]. *)
Fixpoint contains (phrase text : string) : bool :=
  startswith phrase text ||
  match text with
  | EmptyString => false
  | String _ text' => contains phrase text'
  end.

(** [str(i)] for an integer. *)
Definition str (i : Z) : string := NilZero.string_of_int (Z.to_int i).

End PyStr.

(** ** Observable effects *)

Inductive command : Type :=
| LockWorkStation                       (* ctypes.windll.user32.LockWorkStation() *)
| Run (argv : list string) (check : bool).   (* subprocess.run(argv, check=...) *)

Inductive event : Type :=
| Print (line : string)
| PrintExc (label : string)     (* print(label, e) for a caught exception e *)
| Say (text : string)           (* engine.say(text); engine.runAndWait() *)
| Sleep (seconds : Z)
| Exec (c : command)
| ThreadStart (target : string)
| Send (payload : string)
| Close.

(** How a call ends: it returns to its caller, or the interpreter is left
    through [sys.exit(code)] / [os._exit(code)]. *)
Inductive outcome : Type :=
| Return
| Exit (code : Z).

(** ** Action queue ([queue.Queue], FIFO, unbounded) *)

Module ActionQueue.

Definition t : Type := list (string * string).

Definition put (q : t) (item : string * string) : t := q ++ [item].

Definition get_nowait (q : t) : option ((string * string) * t) :=
  match q with
  | [] => None
  | item :: q' => Some (item, q')
  end.

End ActionQueue.

(** ** Voice listener ([voice_listener], lines 97-118) *)

Module Voice.
Local Open Scope string_scope.
Local Open Scope list_scope.

(** Line 18. *)
Definition VOICE_KEY_PHRASES : list string :=
  ["lock laptop"; "lock my laptop"; "lock computer"; "secure"; "lock it"].

(** What one capture-and-recognize round gives. *)
Inductive recognition : Type :=
| Heard (transcript : string)   (* recognize_google returned *)
| WaitTimeoutError              (* listen timed out, line 102 *)
| UnknownValueError             (* line 113 *)
| RequestError                  (* line 115 *)
| OtherError.                   (* line 117 *)

(** Lines 108-112: the [for ... break] over the phrases. *)
Fixpoint scan_phrases (phrases : list string) (text : string) (q : ActionQueue.t)
  : ActionQueue.t * list event :=
  match phrases with
  | [] => (q, [])
  | phrase :: rest =>
      if PyStr.contains phrase text then
        (ActionQueue.put q ("voice", text),
         [Print ("Voice trigger detected: " +:+ phrase)])
      else scan_phrases rest text q
  end.

(** One iteration of the [while] loop, lines 98-118. *)
Definition voice_iteration (r : recognition) (q : ActionQueue.t)
  : ActionQueue.t * list event :=
  match r with
  | WaitTimeoutError => (q, [Print "Listening for command..."])
  | Heard transcript =>
      let text := PyStr.lower transcript in
      let '(q', tr) := scan_phrases VOICE_KEY_PHRASES text q in
      (q', [Print "Listening for command..."; Print ("Heard (voice): " +:+ text)] ++ tr)
  | UnknownValueError => (q, [Print "Listening for command..."])
  | RequestError => (q, [Print "Listening for command..."; PrintExc "Speech service error:"])
  | OtherError => (q, [Print "Listening for command..."; PrintExc "Voice thread error:"])
  end.

Fixpoint voice_iterations (rs : list recognition) (q : ActionQueue.t)
  : ActionQueue.t * list event :=
  match rs with
  | [] => (q, [])
  | r :: rs' =>
      let '(q1, tr1) := voice_iteration r q in
      let '(q2, tr2) := voice_iterations rs' q1 in
      (q2, tr1 ++ tr2)
  end.

End Voice.

(** ** Lock controller ([speak], [lock_workstation], lines 31-81) *)

Module Controller.
Local Open Scope string_scope.
Local Open Scope list_scope.

(** The platform the process runs on and the behaviour of its external
    calls: [platform] is [platform.system().lower()], [raises c] tells
    whether the call [c] raises, [tts_raises text] whether speaking [text]
    does. *)
Record environment : Type := {
  platform : string;
  raises : command -> bool;
  tts_raises : string -> bool
}.

(** Lines 33-38. *)
Definition speak (env : environment) (text : string) : list event :=
  if tts_raises env text then [Say text; PrintExc "TTS error:"] else [Say text].

(** Line 31. *)
Definition initial_last_lock_time : Q := 0.

(** [range(n, 0, -1)] *)
Fixpoint range_down (n : nat) : list Z :=
  match n with
  | O => []
  | S m => Z.of_nat n :: range_down m
  end.

(** Lines 50-53. *)
Definition countdown (env : environment) : list event :=
  if (0 <? CONFIRM_COUNTDOWN)%Z then
    flat_map (fun i => speak env ("Locking in " +:+ PyStr.str i) ++ [Sleep 1])
             (range_down (Z.to_nat CONFIRM_COUNTDOWN))
  else [].

Definition loginctl : command := Run ["loginctl"; "lock-session"] true.
Definition gnome_screensaver : command := Run ["gnome-screensaver-command"; "-l"] true.
Definition xdg_screensaver : command := Run ["xdg-screensaver"; "lock"] false.
Definition dquote : string := String (ascii_of_nat 34) EmptyString.
Definition osascript : command :=
  Run ["/usr/bin/osascript"; "-e";
       "tell application " +:+ dquote +:+ "System Events" +:+ dquote
         +:+ " to keystroke " +:+ dquote +:+ "q" +:+ dquote
         +:+ " using {control down, command down}"]
      false.

(** Lines 55-76: the lock executor. Every exception ends in the handler of
    line 75, which prints and goes on. *)
Definition perform_lock (env : environment) : list event :=
  let plat := platform env in
  if String.eqb plat "windows" then
    if raises env LockWorkStation
    then [Exec LockWorkStation; PrintExc "Lock failed:"]
    else [Exec LockWorkStation]
  else if String.eqb plat "linux" then
    if raises env loginctl then
      if raises env gnome_screensaver then
        if raises env xdg_screensaver
        then [Exec loginctl; Exec gnome_screensaver; Exec xdg_screensaver;
              PrintExc "Lock failed:"]
        else [Exec loginctl; Exec gnome_screensaver; Exec xdg_screensaver]
      else [Exec loginctl; Exec gnome_screensaver]
    else [Exec loginctl]
  else if String.eqb plat "darwin" then
    if raises env osascript
    then [Exec osascript; PrintExc "Lock failed:"]
    else [Exec osascript]
  else [Print "Unknown platform - cannot lock automatically."].

(** Line 44: [now - last_lock_time < DEBOUNCE_SECONDS]. *)
Definition debounced (now last_lock_time : Q) : bool :=
  negb (Qle_bool DEBOUNCE_SECONDS (now - last_lock_time)).

(** Lines 40-81. The result is the new value of the global
    [last_lock_time], the effects in order, and how the call ends. *)
Definition lock_workstation (env : environment) (now last_lock_time : Q)
  : Q * list event * outcome :=
  if debounced now last_lock_time then
    (last_lock_time, [Print "Lock suppressed (debounce)."], Return)
  else
    (now,
     countdown env ++ perform_lock env
       ++ [Print "System locked. Exiting program..."]
       ++ speak env "System locked. Exiting.",
     Exit 0).

(** A Linux desktop on which every external call succeeds. *)
Definition quiet_linux : environment :=
  {| platform := "linux"; raises := fun _ => false; tts_raises := fun _ => false |}.

(** The events by which the lock executor shows in a trace. *)
Definition is_executor_event (e : event) : bool :=
  match e with
  | Exec _ => true
  | Print line => String.eqb line "Unknown platform - cannot lock automatically."
  | _ => false
  end.

Definition executor_invoked (tr : list event) : bool := existsb is_executor_event tr.

End Controller.

(** ** Main camera loop ([main], lines 153-244) *)

Module Main.
Local Open Scope string_scope.
Local Open Scope list_scope.

(** One pass of the [while True] loop as the environment drives it. The
    voice thread runs beside the loop; what matters to the loop is the order
    of the puts on the queue, so the rounds of the voice thread are placed
    before the stabilizer's put (line 215) or between it and the poll
    (line 224). *)
Record tick : Type := {
  ret : bool;                                (* cap.read() delivered a frame *)
  frame : Stabilizer.frame;
  heard_before : list Voice.recognition;
  heard_after : list Voice.recognition;
  lock_now : Q;                              (* time.time() at line 43 *)
  key_q : bool                               (* waitKey returned 'q' *)
}.

Record state : Type := {
  stabilizer : Stabilizer.state;
  action_q : ActionQueue.t;
  last_lock_time : Q
}.

Definition init : state :=
  {| stabilizer := Stabilizer.init; action_q := [];
     last_lock_time := Controller.initial_last_lock_time |}.

(** How one pass ends. *)
Inductive pass_end : Type :=
| Next (s : state)         (* the loop goes round again *)
| Break                    (* lines 176 and 238 *)
| SystemExit (code : Z)    (* raised by sys.exit in lock_workstation *)
| Uncaught (e : exn).

(** Lines 222-230: poll the queue and act on one item. *)
Definition process_action (env : Controller.environment) (now : Q)
    (q : ActionQueue.t) (last : Q) : ActionQueue.t * Q * list event * outcome :=
  match ActionQueue.get_nowait q with
  | None => (q, last, [], Return)
  | Some ((src, payload), q') =>
      let '(last', tr, out) := Controller.lock_workstation env now last in
      (q', last',
       [Print ("Action from: " +:+ src +:+ " " +:+ payload)]
         ++ Controller.speak env "Lock command received" ++ tr,
       out)
  end.

(** Lines 174-238. *)
Definition pass (env : Controller.environment) (s : state) (t : tick)
  : list event * pass_end :=
  if negb (ret t) then ([], Break)
  else
    let '(q1, tr1) := Voice.voice_iterations (heard_before t) (action_q s) in
    match Stabilizer.gesture_step (stabilizer s) (frame t) with
    | Raise e => (tr1, Uncaught e)
    | Ok (st, o) =>
        let '(q2, tr2) :=
          if Stabilizer.emitted o
          then (ActionQueue.put q1 ("gesture", "fist"),
                [Print "Gesture trigger detected (fist)."])
          else (q1, []) in
        let '(q3, tr3) := Voice.voice_iterations (heard_after t) q2 in
        let '(q4, last, tr4, out) :=
          process_action env (lock_now t) q3 (last_lock_time s) in
        match out with
        | Exit code => (tr1 ++ tr2 ++ tr3 ++ tr4, SystemExit code)
        | Return =>
            if key_q t then (tr1 ++ tr2 ++ tr3 ++ tr4, Break)
            else (tr1 ++ tr2 ++ tr3 ++ tr4,
                  Next {| stabilizer := st; action_q := q4; last_lock_time := last |})
        end
    end.

(** What a pass of the loop can end in when the stabilizer is well formed:
    never in an uncaught exception, and in no exit code but 0. *)
Definition pass_end_ok (e : pass_end) : Prop :=
  match e with
  | Next s' => Stabilizer.well_formed (stabilizer s')
  | Break => True
  | SystemExit code => code = 0
  | Uncaught _ => False
  end.

(** How the script ends on the ticks given. *)
Inductive run_end : Type :=
| Looping (s : state)      (* the ticks are used up, the loop is still running *)
| Finished                 (* main returned, the script ends *)
| Exited (code : Z)        (* SystemExit reached the top level *)
| Crashed (e : exn).       (* an exception reached the top level *)

Fixpoint loop (env : Controller.environment) (s : state) (ts : list tick)
  : list event * pass_end :=
  match ts with
  | [] => ([], Next s)
  | t :: ts' =>
      match pass env s t with
      | (tr, Next s') => let '(tr', e) := loop env s' ts' in (tr ++ tr', e)
      | (tr, e) => (tr, e)
      end
  end.

(** Lines 153-244; the [finally] block runs on every way out of the loop. *)
Definition main (camera_opened : bool) (env : Controller.environment)
    (ts : list tick) : list event * run_end :=
  if negb camera_opened then ([Print "Cannot open camera"], Finished)
  else
    let '(tr, e) := loop env init ts in
    match e with
    | Next s => ([ThreadStart "voice_listener"] ++ tr, Looping s)
    | Break => ([ThreadStart "voice_listener"] ++ tr ++ [Print "Exiting..."], Finished)
    | SystemExit code =>
        ([ThreadStart "voice_listener"] ++ tr ++ [Print "Exiting..."], Exited code)
    | Uncaught x =>
        ([ThreadStart "voice_listener"] ++ tr ++ [Print "Exiting..."], Crashed x)
    end.

(** The exit status the operating system sees, if the script has ended. *)
Definition exit_status (r : run_end) : option Z :=
  match r with
  | Looping _ => None
  | Finished => Some 0
  | Exited code => Some code
  | Crashed _ => Some 1
  end.

(** The fist held in front of the camera, nobody speaking, no key pressed. *)
Definition fist_ticks : list tick :=
  map (fun f => {| ret := true; frame := f; heard_before := []; heard_after := [];
                   lock_now := 1700000000; key_q := false |})
      Stabilizer.steady_fist.

(** Two spoken commands, handled at clock readings 2 and 4. *)
Definition early_clock_ticks : list tick :=
  [ {| ret := true; frame := {| Stabilizer.gesture_detected := false; Stabilizer.now := 2 |};
       heard_before := [Voice.Heard "Lock it"]; heard_after := [];
       lock_now := 2; key_q := false |};
    {| ret := true; frame := {| Stabilizer.gesture_detected := false; Stabilizer.now := 4 |};
       heard_before := [Voice.Heard "secure the room"]; heard_after := [];
       lock_now := 4; key_q := false |} ].

End Main.

(** ** Single instance and control socket ([genlock_app.py], lines 120-178) *)

Module Instance.
Local Open Scope string_scope.
Local Open Scope list_scope.

Definition _SINGLETON_PORT : Z := 54321.
Definition _CONTROL_PORT : Z := 54322.

(** The local ports that have a listening socket. [bind] followed by
    [listen] raises [OSError] when the port already has one: this is the
    outcome on POSIX systems. With [SO_REUSEADDR] set (line 133) Windows
    lets the second bind succeed; [AppScript] below takes the outcome of the
    bind as an input instead of deriving it. *)
Definition bind_listen (ports : gset Z) (port : Z) : result (gset Z) :=
  if bool_decide (port ∈ ports) then Raise OSError else Ok ({[port]} ∪ ports).

(** Lines 132-140 and 174-177 taken by themselves, as the block is meant
    to stand at the top of the core script (comment of line 120): claim the
    port or leave, then start the control thread. [Return] is the block
    falling through to whatever follows it. In [genlock_app.py] the block
    comes after the launcher's main loop and nothing follows it; the script
    as a whole is [AppScript.genlock_app] below. *)
Definition startup (ports : gset Z) : gset Z * list event * outcome :=
  match bind_listen ports _SINGLETON_PORT with
  | Raise _ =>
      (ports, [Print "Another GenLock instance is already running. Exiting."], Exit 0)
  | Ok ports' => (ports', [ThreadStart "_control_thread"], Return)
  end.

(** One connection as the environment drives it: whether [accept], [send]
    and [close] raise, and the text [recv(1024).decode(errors='ignore')]
    gives. *)
Record connection : Type := {
  accept_raises : bool;
  received : result string;
  send_raises : bool;
  close_raises : bool
}.

(** Lines 153-172, one pass of the [while True] loop. [Return] is the loop
    going on to the next [accept]; [Exit] is [os._exit], reached through the
    [SystemExit] handler of line 164. *)
Definition serve (c : connection) : list event * outcome :=
  if accept_raises c then ([], Return)
  else
    match received c with
    | Raise _ => ([], Return)
    | Ok text =>
        let data := PyStr.lower (PyStr.strip text) in
        if String.eqb data "stop" then
          if send_raises c then ([], Return)
          else if close_raises c then ([Send "stopping"], Return)
          else ([Send "stopping"; Close; Print "Stop command received, exiting."],
                Exit 0)
        else
          if send_raises c then ([], Return)
          else if close_raises c then ([Send "unknown"], Return)
          else ([Send "unknown"; Close], Return)
    end.

Fixpoint serve_all (cs : list connection) : list event * outcome :=
  match cs with
  | [] => ([], Return)
  | c :: cs' =>
      match serve c with
      | (tr, Return) => let '(tr', out) := serve_all cs' in (tr ++ tr', out)
      | (tr, Exit code) => (tr, Exit code)
      end
  end.

(** Lines 143-172: the thread ends at once when the control port cannot be
    bound. *)
Definition _control_thread (ports : gset Z) (cs : list connection)
  : gset Z * list event * outcome :=
  match bind_listen ports _CONTROL_PORT with
  | Raise _ => (ports, [], Return)
  | Ok ports' => let '(tr, out) := serve_all cs in (ports', tr, out)
  end.

(** A connection on which no socket call raises. *)
Definition delivers (text : string) : connection :=
  {| accept_raises := false; received := Ok text;
     send_raises := false; close_raises := false |}.

End Instance.

(** ** The voice thread as a whole ([voice_listener], lines 84-118) *)

Module VoiceThread.
Import Voice.
Local Open Scope string_scope.
Local Open Scope list_scope.

(** Lines 84-118. [microphone] tells whether [sr.Microphone()] could be
    opened; [rounds] are the passes of the [while] loop made before the stop
    event is set. *)
Definition voice_listener (microphone : bool) (rounds : list recognition)
    (q : ActionQueue.t) : ActionQueue.t * list event :=
  if microphone then
    let '(q', tr) := voice_iterations rounds q in
    (q', [Print "Voice listener ready."] ++ tr)
  else (q, [PrintExc "No microphone found or PyAudio not installed:"]).

(** Some trigger phrase occurs in the text. *)
Definition triggers (text : string) : bool :=
  existsb (fun phrase => PyStr.contains phrase text) VOICE_KEY_PHRASES.

(** The queue items a sequence of rounds is expected to leave: one per
    transcript in which a trigger phrase occurs. *)
Definition voice_items (rounds : list recognition) : list (string * string) :=
  flat_map (fun r =>
              match r with
              | Heard transcript =>
                  if triggers (PyStr.lower transcript)
                  then [("voice", PyStr.lower transcript)] else []
              | _ => []
              end) rounds.

(** A string of whitespace only. *)
Fixpoint blank (s : string) : bool :=
  match s with
  | EmptyString => true
  | String c s' => PyStr.isspace c && blank s'
  end.

End VoiceThread.

(** ** Reading a trace *)

Module Trace.

(** The external commands run, in order. *)
Fixpoint executed (tr : list event) : list command :=
  match tr with
  | [] => []
  | Exec c :: tr' => c :: executed tr'
  | _ :: tr' => executed tr'
  end.

(** The texts spoken, in order. *)
Fixpoint said (tr : list event) : list string :=
  match tr with
  | [] => []
  | Say text :: tr' => text :: said tr'
  | _ :: tr' => said tr'
  end.

(** The seconds slept in all. *)
Fixpoint slept (tr : list event) : Z :=
  match tr with
  | [] => 0
  | Sleep n :: tr' => n + slept tr'
  | _ :: tr' => slept tr'
  end.

End Trace.

(** ** Gesture utilities ([genlock.py], lines 127-150 and 181-196) *)

Module Classifier.

(** A landmark in pixels, as [landmarks_to_np] returns it. *)
Definition point : Type := (Z * Z)%type.

(** [np.array] of a pair of Python integers is an [int64] array, and the
    subtraction of two such arrays wraps around. *)
Definition wrap64 (z : Z) : Z := (z + 2 ^ 63) mod 2 ^ 64 - 2 ^ 63.

Definition sub (a b : point) : point :=
  (wrap64 (fst a - fst b), wrap64 (snd a - snd b)).

(** [astype(float)] on one [int64] entry. *)
Definition float_of_int64 (z : Z) : float :=
  if z =? - 2 ^ 63 then
    PrimFloat.opp (PrimFloat.mul 2 (PrimFloat.of_uint63 (Uint63.of_Z (2 ^ 62))))
  else if z <? 0 then PrimFloat.opp (PrimFloat.of_uint63 (Uint63.of_Z (- z)))
  else PrimFloat.of_uint63 (Uint63.of_Z z).

(** [np.linalg.norm] of a two-entry integer vector: the entries are
    converted to binary64, and the result is the square root of the dot
    product of the vector with itself. *)
Definition norm (v : point) : float :=
  let x := float_of_int64 (fst v) in
  let y := float_of_int64 (snd v) in
  PrimFloat.sqrt (PrimFloat.add (PrimFloat.mul x x) (PrimFloat.mul y y)).

(** The double nearest to 1.05. *)
Definition float_105 : float := 0x1.0cccccccccccdp+0%float.

(** Lines 127-133. [None] is the [IndexError] of a subscript past the end
    of [pts]. *)
Definition is_finger_extended (pts : list point) (tip_idx pip_idx mcp_idx : nat)
  : option bool :=
  match pts !! tip_idx with
  | None => None
  | Some tip =>
      match pts !! pip_idx with
      | None => None
      | Some pip =>
          match pts !! mcp_idx with
          | None => None
          | Some mcp =>
              Some (PrimFloat.ltb (PrimFloat.mul (norm (sub pip mcp)) float_105)
                                  (norm (sub tip mcp)))
          end
      end
  end.

(** Line 143. *)
Definition fingers : list (nat * nat * nat) :=
  [(8, 6, 5); (12, 10, 9); (16, 14, 13); (20, 18, 17)]%nat.

(** Lines 144-145: the checks of the four fingers, in order, stopping at
    the first [IndexError]. *)
Fixpoint finger_checks (pts : list point) (fs : list (nat * nat * nat))
  : option (list bool) :=
  match fs with
  | [] => Some []
  | (tip, pip, mcp) :: fs' =>
      match is_finger_extended pts tip pip mcp with
      | None => None
      | Some b =>
          match finger_checks pts fs' with
          | None => None
          | Some bs => Some (b :: bs)
          end
      end
  end.

(** [sum(checks)] *)
Fixpoint sum_bools (bs : list bool) : Z :=
  match bs with
  | [] => 0
  | b :: bs' => (if b then 1 else 0) + sum_bools bs'
  end.

(** Lines 135-150. *)
Definition is_closed_fist (pts : list point) : option bool :=
  match finger_checks pts fingers with
  | None => None
  | Some checks =>
      match is_finger_extended pts 4 3 2 with
      | None => None
      | Some thumb_extended =>
          let extended_count := sum_bools checks + (if thumb_extended then 1 else 0) in
          Some (extended_count <=? 1)
      end
  end.

(** Lines 181-196: [hands] is [results.multi_hand_landmarks] with each hand
    already converted by [landmarks_to_np]; [None] and the empty list are
    both false in the test of line 182. *)
Definition gesture_detected (hands : option (list (list point))) : bool :=
  match hands with
  | None => false
  | Some [] => false
  | Some (pts :: _) =>
      match is_closed_fist pts with
      | Some true => true
      | Some false => false
      | None => false
      end
  end.

(** The three joints of each of the five fingers fall on one pixel. *)
Definition joints_coincide (pts : list point) : Prop :=
  forall tip pip mcp,
    In (tip, pip, mcp) ((4, 3, 2)%nat :: fingers) ->
    exists p, pts !! tip = Some p /\ pts !! pip = Some p /\ pts !! mcp = Some p.

End Classifier.

(** ** The launcher ([genlock_app.py], lines 16-36 and 70-87) *)

Module Launcher.
Local Open Scope string_scope.
Local Open Scope list_scope.

(** One entry of [psutil.process_iter(attrs=['pid', 'name', 'cmdline'])].
    [name] and [cmdline] are [None] when the attribute could not be read;
    [info_raises] tells whether reading the entry at line 22 raises
    [NoSuchProcess] or [AccessDenied]. *)
Record process : Type := {
  pid : Z;
  name : option string;
  cmdline : option (list string);
  info_raises : bool
}.

(** [(proc.info.get('name') or "").lower()] *)
Definition lowered_name (proc : process) : string :=
  PyStr.lower (match name proc with Some n => n | None => EmptyString end).

(** [proc.info.get('cmdline') or []] *)
Definition cmdline_parts (proc : process) : list string :=
  match cmdline proc with Some parts => parts | None => [] end.

(** Line 25. *)
Definition cmdline_mentions_core (proc : process) : bool :=
  existsb (fun part => PyStr.contains "genlock_core" (PyStr.lower part))
          (cmdline_parts proc).

(** Lines 20-36: the loop over the processes; [own] is [os.getpid()]. *)
Fixpoint scan (own : Z) (procs : list process) : option process :=
  match procs with
  | [] => None
  | proc :: rest =>
      if info_raises proc then scan own rest
      else if cmdline_mentions_core proc then Some proc
      else if PyStr.contains "genlock_core" (lowered_name proc) then Some proc
      else if PyStr.contains "genlock_app" (lowered_name proc)
              || PyStr.contains "genlock" (lowered_name proc) then
        if negb (pid proc =? own)%Z then Some proc else scan own rest
      else scan own rest
  end.

(** Lines 16-36. [psutil] tells whether the import at line 10 worked. *)
Definition find_genlock_process (psutil : bool) (own : Z) (procs : list process)
  : option process :=
  if psutil then scan own procs else None.

(** The entry names the core script, in its command line or its name. *)
Definition mentions_core (proc : process) : bool :=
  cmdline_mentions_core proc || PyStr.contains "genlock_core" (lowered_name proc).

(** What the launcher does to the outside. *)
Inductive action : Type :=
| SetStatus (text fg : string)     (* status_label.config(text=..., fg=...) *)
| SetStatusExc (label fg : string) (* the same with the text of an exception appended *)
| Terminate (pid : Z)
| Wait (pid : Z) (timeout : Z)
| Kill (pid : Z).

(** How [proc.wait(timeout=3)] ends. *)
Inductive wait_end : Type :=
| Gone             (* the process ended in time *)
| TimeoutExpired
| WaitError.       (* any other exception *)

(** Lines 70-87. *)
Definition stop_genlock (psutil : bool) (own : Z) (procs : list process)
    (terminate_raises : bool) (wait : wait_end) (kill_raises : bool)
  : list action :=
  if negb psutil then [SetStatus "psutil not installed (can't stop)" "#ffcc00"]
  else
    match find_genlock_process psutil own procs with
    | None => [SetStatus "Not running" "white"]
    | Some proc =>
        if terminate_raises
        then [Terminate (pid proc); SetStatusExc "Stop failed: " "#ffcc00"]
        else
          match wait with
          | Gone =>
              [Terminate (pid proc); Wait (pid proc) 3; SetStatus "Stopped" "#ff3b30"]
          | TimeoutExpired =>
              if kill_raises
              then [Terminate (pid proc); Wait (pid proc) 3; Kill (pid proc);
                    SetStatusExc "Stop failed: " "#ffcc00"]
              else [Terminate (pid proc); Wait (pid proc) 3; Kill (pid proc);
                    SetStatus "Stopped" "#ff3b30"]
          | WaitError =>
              [Terminate (pid proc); Wait (pid proc) 3;
               SetStatusExc "Stop failed: " "#ffcc00"]
          end
    end.

(** A launcher started as a frozen executable, and a core started from its
    script. *)
Definition launcher_entry : process :=
  {| pid := 100; name := Some "GenLock_App.exe";
     cmdline := Some ["C:\GenLock\GenLock_App.exe"]; info_raises := false |}.

Definition core_entry : process :=
  {| pid := 200; name := Some "python.exe";
     cmdline := Some ["python.exe"; "C:\GenLock\genlock_core.py"];
     info_raises := false |}.

End Launcher.

(** ** More of the control thread *)

Module ControlLoop.

(** A connection that ends the process: no call raises and the text,
    stripped and lowercased, is the stop command. *)
Definition is_stop (c : Instance.connection) : bool :=
  negb (Instance.accept_raises c)
  && match Instance.received c with
     | Ok text => String.eqb (PyStr.lower (PyStr.strip text)) "stop"
     | Raise _ => false
     end
  && negb (Instance.send_raises c) && negb (Instance.close_raises c).

End ControlLoop.

(** ** Sessions without speech *)

Module Session.

(** A pass in which a frame arrives, nobody speaks, [q] is not pressed, and
    the clock is at least [DEBOUNCE_SECONDS] past the initial
    [last_lock_time] (as any clock that counts from 1970 is). *)
Definition gesture_only (t : Main.tick) : Prop :=
  Main.ret t = true /\ Main.key_q t = false /\
  Main.heard_before t = [] /\ Main.heard_after t = [] /\
  Controller.debounced (Main.lock_now t) Controller.initial_last_lock_time = false.

(** The stabilizer emitted on some frame of the log. *)
Definition some_emitted (log : list Stabilizer.frame_out) : bool :=
  existsb Stabilizer.emitted log.

End Session.

(** ** The launcher script as a whole ([genlock_app.py], lines 38-47 and 89-178) *)

Module AppScript.
Local Open Scope string_scope.
Local Open Scope list_scope.

(** What happens while [root.mainloop()] runs, until the window is closed:
    the status timer fires, or the button is clicked. Each carries the
    process list psutil shows at that moment. *)
Inductive gui_event : Type :=
| Timer (procs : list Launcher.process)
| Click (procs : list Launcher.process).

(** What the script does, in order. The threads it starts run beside the
    main loop; their own effects ([Launcher.stop_genlock]) are not
    interleaved here. *)
Inductive step : Type :=
| BuildWindow                     (* lines 100-115 *)
| After (ms : Z)                  (* root.after(ms, update_status_label) *)
| EnterMainloop                   (* line 119 *)
| LeaveMainloop                   (* the window was closed *)
| Status (text fg : string)       (* status_label.config *)
| ButtonLabel (text bg : string)  (* start_btn.config *)
| Spawn (target : string)         (* threading.Thread(target=..., daemon=True).start() *)
| Block (e : event).              (* an effect of lines 121-177 *)

(** Lines 38-47. *)
Definition update_status_label (psutil : bool) (own : Z)
    (procs : list Launcher.process) : list step :=
  match Launcher.find_genlock_process psutil own procs with
  | Some proc =>
      [Status ("Running (pid " +:+ PyStr.str (Launcher.pid proc) +:+ ")") "#00b894";
       ButtonLabel "Stop GenLock" "#e74c3c"; After 1000]
  | None =>
      [Status "Not running" "white"; ButtonLabel "Start GenLock" "#00b894";
       After 1000]
  end.

(** Lines 89-97. *)
Definition start_stop_handler (psutil : bool) (own : Z)
    (procs : list Launcher.process) : list step :=
  match Launcher.find_genlock_process psutil own procs with
  | Some _ => [Spawn "stop_genlock"]
  | None => [Spawn "start_genlock_background"]
  end.

(** Line 119: the callbacks run one after the other. *)
Fixpoint mainloop (psutil : bool) (own : Z) (evs : list gui_event) : list step :=
  match evs with
  | [] => []
  | Timer procs :: evs' => update_status_label psutil own procs ++ mainloop psutil own evs'
  | Click procs :: evs' => start_stop_handler psutil own procs ++ mainloop psutil own evs'
  end.

(** Lines 132-140 and 174-177, with the outcome of the bind of line 135 as
    an input. *)
Definition guard (bind_raises : bool) : list event * outcome :=
  if bind_raises
  then ([Print "Another GenLock instance is already running. Exiting."], Exit 0)
  else ([ThreadStart "_control_thread"], Return).

(** The whole script, lines 1-178, with the exit status of the process.
    [display] tells whether [tk.Tk()] could open a window (it raises
    otherwise, and the uncaught exception gives status 1). After line 177
    nothing is left to run: the script ends, with status 0, and the daemon
    control thread ends with it. *)
Definition genlock_app (display psutil : bool) (own : Z) (evs : list gui_event)
    (bind_raises : bool) : list step * Z :=
  if negb display then ([], 1)
  else
    let '(tr, out) := guard bind_raises in
    ([BuildWindow; After 500; EnterMainloop] ++ mainloop psutil own evs
       ++ [LeaveMainloop] ++ map Block tr,
     match out with Exit code => code | Return => 0 end).

(** The steps that start a thread or run a main loop. *)
Definition starts_thread_or_loop (st : step) : bool :=
  match st with
  | EnterMainloop => true
  | Spawn _ => true
  | Block (ThreadStart _) => true
  | _ => false
  end.

End AppScript.

(** * Properties *)

Module StabilizerFacts.
Import Stabilizer.

Lemma votes_app (l1 l2 : list bool) : votes (l1 ++ l2) = votes l1 + votes l2.
Proof. induction l1 as [|b l1 IH]; simpl; [reflexivity | rewrite IH; lia]. Qed.

Lemma votes_bounds (l : list bool) : 0 <= votes l <= Z.of_nat (length l).
Proof. induction l as [|[] l IH]; simpl length; simpl votes; lia. Qed.

Lemma votes_suffix (l1 l2 : list bool) : suffix l1 l2 -> votes l1 <= votes l2.
Proof.
  intros [k ->]. rewrite votes_app. pose proof (votes_bounds k). lia.
Qed.

(** The exact comparison is the integer comparison with 7. *)
Lemma stable_of_spec (fh : list bool) : stable_of fh = (7 <=? votes fh).
Proof.
  unfold stable_of, GESTURE_FRAME_WINDOW.
  destruct (Z.leb_spec 7 (votes fh)) as [H | H].
  - apply Qle_bool_iff. unfold Qle. simpl. lia.
  - destruct (Qle_bool _ _) eqn:E; [|reflexivity].
    apply Qle_bool_iff in E. unfold Qle in E. simpl in E. lia.
Qed.

Lemma stable_of_true (fh : list bool) : stable_of fh = true <-> 7 <= votes fh.
Proof. rewrite stable_of_spec. apply Z.leb_le. Qed.

Lemma votes_cases (fh : list bool) :
  Z.of_nat (length fh) <= GESTURE_FRAME_WINDOW ->
  votes fh = 0 \/ votes fh = 1 \/ votes fh = 2 \/ votes fh = 3 \/ votes fh = 4
  \/ votes fh = 5 \/ votes fh = 6 \/ votes fh = 7 \/ votes fh = 8
  \/ votes fh = 9 \/ votes fh = 10.
Proof.
  intros H. pose proof (votes_bounds fh). unfold GESTURE_FRAME_WINDOW in H. lia.
Qed.

(** The binary64 product [10 * 0.7] is exactly [7.0]. *)
Lemma float_threshold_exact :
  PrimFloat.mul (PrimFloat.of_uint63 (Uint63.of_Z GESTURE_FRAME_WINDOW)) float_07
  = 7%float.
Proof. reflexivity. Qed.

Lemma stable_float_spec (fh : list bool) :
  Z.of_nat (length fh) <= GESTURE_FRAME_WINDOW ->
  stable_float fh = (7 <=? votes fh).
Proof.
  intros H. unfold stable_float.
  destruct (votes_cases fh H) as
    [E|[E|[E|[E|[E|[E|[E|[E|[E|[E|E]]]]]]]]]]; rewrite E; reflexivity.
Qed.

(** *** The window *)

Lemma append_evict_length (fh : list bool) (g : bool) :
  Z.of_nat (length fh) <= GESTURE_FRAME_WINDOW ->
  Z.of_nat (length (append_evict fh g)) <= GESTURE_FRAME_WINDOW.
Proof.
  intros H. unfold append_evict.
  destruct (Z.ltb_spec GESTURE_FRAME_WINDOW (Z.of_nat (length (fh ++ [g])))) as [Hgt | Hle].
  - rewrite length_app in Hgt. simpl in Hgt.
    destruct fh as [|b fh]; simpl in *; [lia|].
    rewrite length_app. simpl. lia.
  - exact Hle.
Qed.

Lemma append_evict_fifo (fh : list bool) (g : bool) :
  Z.of_nat (length fh) <= GESTURE_FRAME_WINDOW ->
  append_evict fh g = last_window (fh ++ [g]).
Proof.
  intros H. unfold append_evict, last_window.
  rewrite length_app. simpl length.
  destruct (Z.ltb_spec GESTURE_FRAME_WINDOW (Z.of_nat (length fh + 1))) as [Hgt | Hle].
  - replace (length fh + 1 - Z.to_nat GESTURE_FRAME_WINDOW)%nat with 1%nat
      by (unfold GESTURE_FRAME_WINDOW in *; lia).
    destruct fh; reflexivity.
  - replace (length fh + 1 - Z.to_nat GESTURE_FRAME_WINDOW)%nat with 0%nat
      by (unfold GESTURE_FRAME_WINDOW in *; lia).
    reflexivity.
Qed.

Lemma append_evict_suffix (fh : list bool) (g : bool) :
  suffix (append_evict fh g) (fh ++ [g]).
Proof.
  unfold append_evict. destruct (_ <? _).
  - destruct (fh ++ [g]) as [|b l]; [apply suffix_nil|]. simpl. exists [b]. reflexivity.
  - reflexivity.
Qed.

Lemma suffix_last_window (w l : list bool) :
  suffix w l -> Z.of_nat (length w) <= GESTURE_FRAME_WINDOW -> suffix w (last_window l).
Proof.
  intros [k ->] H. unfold last_window. rewrite length_app.
  rewrite drop_app_le by lia.
  exists (drop (length k + length w - Z.to_nat GESTURE_FRAME_WINDOW) k). reflexivity.
Qed.

(** *** One frame *)

Lemma gesture_step_cases (s s1 : state) (f : frame) (o : frame_out) :
  gesture_step s f = Ok (s1, o) ->
  step_case s f (append_evict (frame_history s) (gesture_detected f)) s1 o.
Proof.
  unfold gesture_step.
  set (fh := append_evict _ _).
  destruct (stable_of fh) eqn:Hst, (last_gesture_state s) eqn:Hl; simpl.
  - destruct (gesture_start_time s) as [t0|] eqn:Ht; [|discriminate].
    destruct (Qle_bool _ _) eqn:Hq; intros [= <- <-].
    + eapply case_emit; eauto.
    + eapply case_hold; eauto.
  - intros [= <- <-]. apply case_start; auto.
  - intros [= <- <-]. apply case_unstable; auto.
  - intros [= <- <-]. apply case_unstable; auto.
Qed.


(** *** Runs *)

Lemma run_cons (s s' : state) (f : frame) (fs : list frame) (log : list frame_out) :
  run s (f :: fs) = Ok (s', log) ->
  exists s1 o os,
    gesture_step s f = Ok (s1, o) /\ run s1 fs = Ok (s', os) /\ log = o :: os.
Proof.
  simpl. destruct (gesture_step s f) as [[s1 o]|]; [|discriminate].
  destruct (run s1 fs) as [[s2 os]|] eqn:Hrun; [|discriminate].
  intros [= <- <-]. exists s1, o, os. auto.
Qed.

Lemma gesture_step_total (s : state) (f : frame) :
  well_formed s -> exists s1 o, gesture_step s f = Ok (s1, o) /\ well_formed s1.
Proof.
  intros Hwf. unfold gesture_step.
  set (fh := append_evict _ _).
  destruct (stable_of fh), (last_gesture_state s) eqn:Hl; simpl.
  - destruct (Hwf Hl) as [t0 ->].
    destruct (Qle_bool _ _); eexists _, _; (split; [reflexivity|]);
      unfold well_formed; simpl; eauto; discriminate.
  - eexists _, _; split; [reflexivity|]. unfold well_formed; simpl; eauto.
  - eexists _, _; split; [reflexivity|]. unfold well_formed; simpl; discriminate.
  - eexists _, _; split; [reflexivity|]. unfold well_formed; simpl; discriminate.
Qed.

(** From a well-formed state the stabilizer never raises: every frame gets
    its log entry. *)
Lemma run_total (fs : list frame) (s : state) :
  well_formed s ->
  exists s' log, run s fs = Ok (s', log) /\ well_formed s' /\ length log = length fs.
Proof.
  revert s. induction fs as [|f fs IH]; intros s Hwf.
  - exists s, []. auto.
  - destruct (gesture_step_total s f Hwf) as (s1 & o & Hstep & Hwf1).
    destruct (IH s1 Hwf1) as (s2 & os & Hrun & Hwf2 & Hlen).
    exists s2, (o :: os). simpl. rewrite Hstep, Hrun. simpl. auto.
Qed.

Lemma init_well_formed : well_formed init.
Proof. unfold well_formed, init. simpl. discriminate. Qed.

Lemma step_case_history (s s1 : state) (f : frame) (fh : list bool) (o : frame_out) :
  step_case s f fh s1 o ->
  window o = fh /\ stable o = stable_of fh /\
  (frame_history s1 = fh \/ frame_history s1 = [] /\ emitted o = true).
Proof. intros []; simpl; auto. Qed.

(** Every logged window is made of the most recent frames: it is a suffix
    of the history the run started with followed by the signals seen so
    far, and it is no longer than the window size. *)
Lemma run_window (fs : list frame) (s s' : state) (log : list frame_out) :
  run s fs = Ok (s', log) ->
  Z.of_nat (length (frame_history s)) <= GESTURE_FRAME_WINDOW ->
  Z.of_nat (length (frame_history s')) <= GESTURE_FRAME_WINDOW /\
  forall k o, log !! k = Some o ->
    Z.of_nat (length (window o)) <= GESTURE_FRAME_WINDOW /\
    stable o = stable_of (window o) /\
    suffix (window o) (frame_history s ++ take (S k) (signals fs)).
Proof.
  revert s log. induction fs as [|f fs IH]; intros s log Hrun Hlen.
  - simpl in Hrun. injection Hrun as <- <-. split; [assumption|].
    intros k o Hk. rewrite lookup_nil in Hk. discriminate.
  - apply run_cons in Hrun as (s1 & o & os & Hstep & Hrun & ->).
    apply gesture_step_cases, step_case_history in Hstep as (Hw & Hst & Hh).
    pose proof (append_evict_length (frame_history s) (gesture_detected f) Hlen) as Hlen1.
    pose proof (append_evict_suffix (frame_history s) (gesture_detected f)) as Hsuf.
    assert (Z.of_nat (length (frame_history s1)) <= GESTURE_FRAME_WINDOW) as Hlen'.
    { destruct Hh as [-> | [-> _]]; [assumption | simpl; unfold GESTURE_FRAME_WINDOW; lia]. }
    destruct (IH s1 os Hrun Hlen') as [Hfin Hlog]. split; [assumption|].
    intros [|k] o' Hk; simpl in Hk.
    + injection Hk as Heq. subst o'. rewrite Hst, Hw. auto.
    + destruct (Hlog k o' Hk) as (Ha & Hb & Hc). repeat split; try assumption.
      etransitivity; [exact Hc|].
      change (take (S (S k)) (signals (f :: fs)))
        with (gesture_detected f :: take (S k) (signals fs)).
      replace (frame_history s ++ gesture_detected f :: take (S k) (signals fs))
        with ((frame_history s ++ [gesture_detected f]) ++ take (S k) (signals fs))
        by (rewrite <- app_assoc; reflexivity).
      apply suffix_app.
      destruct Hh as [-> | [-> _]]; [assumption | apply suffix_nil].
Qed.

(** On an empty history the first frame cannot be stable. *)
Lemma fresh_first_unstable (fs : list frame) (s s' : state) (log : list frame_out) :
  run s fs = Ok (s', log) -> frame_history s = [] -> ~ stable_at log 0.
Proof.
  intros Hrun Hnil (o & Hlook & Hst).
  destruct fs as [|f fs]; [simpl in Hrun; injection Hrun as <- <-; discriminate|].
  apply run_cons in Hrun as (s1 & o1 & os & Hstep & _ & ->).
  simpl in Hlook. injection Hlook as Heq. subst o1.
  apply gesture_step_cases, step_case_history in Hstep as (Hw & Hs & _).
  rewrite Hs, Hnil in Hst. destruct (gesture_detected f); discriminate.
Qed.


(** *** Where an emission comes from *)

Lemma stable_at_head (o : frame_out) (os : list frame_out) :
  stable o = true -> stable_at (o :: os) 0.
Proof. intros H. exists o. auto. Qed.

Lemma stable_upto_cons (o : frame_out) (os : list frame_out) (k : nat) :
  stable o = true ->
  (forall i, (i <= k)%nat -> stable_at os i) ->
  forall i, (i <= S k)%nat -> stable_at (o :: os) i.
Proof.
  intros Ho Hall [|i] Hi; [apply stable_at_head; assumption|].
  apply (Hall i). lia.
Qed.

(** An emission at frame [k] of a run that starts in any state [s] has one
    of three origins: the verdict turned true inside the run, after an
    unstable frame [j]; or [s] was already holding; or [s] was idle and the
    very first frame of the run was stable. *)
Lemma run_emit_origin (fs : list frame) :
  forall (s s' : state) (log : list frame_out) (k : nat),
  run s fs = Ok (s', log) -> emitted_at log k ->
  (exists j tj tk, (S j < k)%nat /\ unstable_at log j /\
     (forall i, (j < i <= k)%nat -> stable_at log i) /\
     clock_at fs (S j) tj /\ clock_at fs k tk /\ (LOCK_HOLD_SECONDS <= tk - tj)%Q)
  \/ (last_gesture_state s = true /\
      (forall i, (i <= k)%nat -> stable_at log i) /\
      exists t0 tk, gesture_start_time s = Some t0 /\ clock_at fs k tk /\
                    (LOCK_HOLD_SECONDS <= tk - t0)%Q)
  \/ (last_gesture_state s = false /\
      (forall i, (i <= k)%nat -> stable_at log i) /\ (0 < k)%nat /\
      exists t0 tk, clock_at fs 0 t0 /\ clock_at fs k tk /\
                    (LOCK_HOLD_SECONDS <= tk - t0)%Q).
Proof.
  induction fs as [|f fs IH]; intros s s' log k Hrun (o & Hk & He).
  - simpl in Hrun. injection Hrun as <- <-. rewrite lookup_nil in Hk. discriminate.
  - apply run_cons in Hrun as (s1 & o1 & os & Hstep & Hrun & ->).
    apply gesture_step_cases in Hstep.
    destruct k as [|k].
    + (* the first frame of the run emits: [s] was holding *)
      simpl in Hk. injection Hk as Heq. subst o1.
      inversion Hstep as [ | t0 Hst Hl Ht Hq | | ]; subst; simpl in He; try discriminate.
      right; left. split; [assumption|]. split.
      * intros i Hi. replace i with 0%nat by lia. apply stable_at_head. reflexivity.
      * exists t0, (now f). split; [assumption|]. split; [exists f; auto|].
        apply Qle_bool_iff. assumption.
    + destruct (IH s1 s' os k Hrun) as
        [ (j & tj & tk & Hjk & Hun & Hall & Hcj & Hck & Hq)
        | [ (Hl1 & Hall & t0 & tk & Ht0 & Hck & Hq)
          | (Hl1 & Hall & Hpos & t0 & tk & Hc0 & Hck & Hq) ] ].
      { exists o. auto. }
      * left. exists (S j), tj, tk. split; [lia|]. split; [exact Hun|].
        split; [|auto].
        intros [|i] Hi; [lia|]. apply (Hall i). lia.
      * inversion Hstep as [ Hst Hl | | t1 Hst Hl Ht Hq1 | ];
          subst; simpl in Hl1, Ht0; try discriminate.
        -- (* the hold started on this frame *)
           right; right. split; [assumption|]. split.
           { apply stable_upto_cons; [reflexivity | assumption]. }
           split; [lia|]. injection Ht0 as <-.
           exists (now f), tk. split; [exists f; auto|]. split; [exact Hck | exact Hq].
        -- (* the hold goes on *)
           right; left. split; [assumption|]. split.
           { apply stable_upto_cons; [reflexivity | assumption]. }
           injection Ht0 as <-. exists t1, tk. auto.
      * inversion Hstep as [ | t1 Hst Hl Ht Hq1 | | Hst ];
          subst; simpl in Hl1; try discriminate.
        -- (* the frame before emitted: the window is empty again *)
           exfalso. eapply fresh_first_unstable; [exact Hrun | reflexivity |].
           apply Hall. lia.
        -- (* the verdict turns true right after this unstable frame *)
           left. exists 0%nat, t0, tk. split; [lia|]. split.
           { eexists. split; [reflexivity|]. reflexivity. }
           split; [|auto].
           intros [|i] Hi; [lia|]. apply (Hall i). lia.
Qed.


Lemma spec_threshold_value : spec_threshold = 7.
Proof. reflexivity. Qed.

Lemma run_emitted_stable (fs : list frame) (s s' : state) (log : list frame_out) :
  run s fs = Ok (s', log) ->
  forall k o, log !! k = Some o -> emitted o = true -> stable o = true.
Proof.
  revert s log. induction fs as [|f fs IH]; intros s log Hrun k o Hk He.
  - simpl in Hrun. injection Hrun as <- <-. rewrite lookup_nil in Hk. discriminate.
  - apply run_cons in Hrun as (s1 & o1 & os & Hstep & Hrun & ->).
    destruct k as [|k]; simpl in Hk.
    + injection Hk as Heq. subst o1.
      apply gesture_step_cases in Hstep.
      destruct Hstep; simpl in *; congruence.
    + eapply IH; eauto.
Qed.

(** The scenario of the specification: eight true frames, one false, one
    true give 9 votes, which is stable. *)
Example scenario_nine_votes :
  let fh := [true; true; true; true; true; true; true; true; false; true] in
  votes fh = 9 /\ stable_of fh = true /\ stable_float fh = true.
Proof. repeat split; reflexivity. Qed.

(** With the fist held at ten frames per second the verdict turns true on
    the seventh frame (clock 0.6) and the one event is emitted on the
    sixteenth (clock 1.5). *)
Example steady_fist_log :
  exists s' log,
    run init steady_fist = Ok (s', log) /\
    map stable log = repeat false 6 ++ repeat true 10 /\
    map emitted log = repeat false 15 ++ [true] /\
    frame_history s' = [].
Proof.
  destruct (run init steady_fist) as [[s' log]|] eqn:Hrun;
    [|vm_compute in Hrun; discriminate].
  exists s', log. split; [reflexivity|].
  vm_compute in Hrun. injection Hrun as <- <-. repeat split; reflexivity.
Qed.

(** *** The claims about the stabilizer *)

(** C6. With the window of 10 frames the verdict of line 204 is true
    exactly when at least [ceil(0.7 * 10) = 7] entries of the window are
    true: the exact comparison and the binary64 comparison the interpreter
    performs both decide as the specification's threshold does. *)
Theorem stable_threshold_is_seven (fh : list bool) :
  Z.of_nat (length fh) <= GESTURE_FRAME_WINDOW ->
  spec_threshold = 7 /\
  stable_of fh = spec_stable fh /\
  stable_float fh = spec_stable fh.
Proof.
  intros Hlen. unfold spec_stable. rewrite spec_threshold_value.
  split; [reflexivity|]. split.
  - apply stable_of_spec.
  - apply stable_float_spec. assumption.
Qed.

Lemma stable_threshold_is_seven_witness :
  let fh := [true; true; true; true; true; true; true; true; false; true] in
  Z.of_nat (length fh) <= GESTURE_FRAME_WINDOW /\
  spec_threshold = 7 /\ stable_of fh = spec_stable fh /\ stable_float fh = spec_stable fh.
Proof.
  intros fh. split.
  - unfold GESTURE_FRAME_WINDOW. simpl. lia.
  - apply (stable_threshold_is_seven fh). unfold GESTURE_FRAME_WINDOW. simpl. lia.
Defined.

(** C9. The stability window never holds more than [W] entries. For every
    sequence of frames the stabilizer runs through without raising; the
    window after each observation and the history kept afterwards have at
    most [GESTURE_FRAME_WINDOW] entries; each window is made of the most
    recent signals in arrival order; and one observation keeps the last
    [W] entries of the appended history, so what is dropped is the
    oldest. *)
Theorem window_never_exceeds_W (fs : list frame) :
  exists s' log,
    run init fs = Ok (s', log) /\ length log = length fs /\
    Z.of_nat (length (frame_history s')) <= GESTURE_FRAME_WINDOW /\
    (forall k o, log !! k = Some o ->
       Z.of_nat (length (window o)) <= GESTURE_FRAME_WINDOW /\
       suffix (window o) (take (S k) (signals fs))) /\
    (forall fh g, Z.of_nat (length fh) <= GESTURE_FRAME_WINDOW ->
       Z.of_nat (length (append_evict fh g)) <= GESTURE_FRAME_WINDOW /\
       append_evict fh g = last_window (fh ++ [g])).
Proof.
  destruct (run_total fs init init_well_formed) as (s' & log & Hrun & _ & Hlen).
  exists s', log. split; [assumption|]. split; [assumption|].
  assert (Z.of_nat (length (frame_history init)) <= GESTURE_FRAME_WINDOW) as H0
    by (unfold GESTURE_FRAME_WINDOW; simpl; lia).
  destruct (run_window fs init s' log Hrun H0) as [Hfin Hlog].
  split; [assumption|]. split.
  - intros k o Hk. destruct (Hlog k o Hk) as (Ha & _ & Hc). split; assumption.
  - intros fh g Hfh. split; [apply append_evict_length | apply append_evict_fifo];
      assumption.
Qed.

Lemma window_never_exceeds_W_witness :
  exists s' log,
    run init steady_fist = Ok (s', log) /\ length log = length steady_fist /\
    Z.of_nat (length (frame_history s')) <= GESTURE_FRAME_WINDOW /\
    (forall k o, log !! k = Some o ->
       Z.of_nat (length (window o)) <= GESTURE_FRAME_WINDOW /\
       suffix (window o) (take (S k) (signals steady_fist))) /\
    (forall fh g, Z.of_nat (length fh) <= GESTURE_FRAME_WINDOW ->
       Z.of_nat (length (append_evict fh g)) <= GESTURE_FRAME_WINDOW /\
       append_evict fh g = last_window (fh ++ [g])).
Proof. exact (window_never_exceeds_W steady_fist). Defined.

(** C1. A GESTURE event is put on the queue at frame [k] only if the
    verdict turned true at some earlier frame (the frame after an unstable
    frame [j]), stayed true on every frame from there to [k], and the clock
    moved by at least [LOCK_HOLD_SECONDS] between that frame and [k]. On
    each of these frames at least [ceil(0.7 * W)] of the last at most [W]
    observed signals are true. *)
Theorem gesture_event_requires_held_stability
    (fs : list frame) (s' : state) (log : list frame_out) (k : nat) :
  run init fs = Ok (s', log) -> emitted_at log k ->
  exists j tj tk,
    (S j < k)%nat /\ unstable_at log j /\
    (forall i, (j < i <= k)%nat ->
       stable_at log i /\
       spec_threshold <= votes (last_window (take (S i) (signals fs)))) /\
    clock_at fs (S j) tj /\ clock_at fs k tk /\
    (LOCK_HOLD_SECONDS <= tk - tj)%Q.
Proof.
  intros Hrun Hem.
  assert (Z.of_nat (length (frame_history init)) <= GESTURE_FRAME_WINDOW) as H0
    by (unfold GESTURE_FRAME_WINDOW; simpl; lia).
  destruct (run_window fs init s' log Hrun H0) as [_ Hlog].
  destruct (run_emit_origin fs init s' log k Hrun Hem) as
    [ (j & tj & tk & Hjk & Hun & Hall & Hcj & Hck & Hq)
    | [ (Hl & _) | (_ & Hall & _) ] ].
  - exists j, tj, tk. repeat (split; [assumption|]). split; [|auto].
    intros i Hi. pose proof (Hall i Hi) as Hs. split; [exact Hs|].
    destruct Hs as (o & Ho & Hst).
    destruct (Hlog i o Ho) as (Hlen & Hdef & Hsuf). simpl in Hsuf.
    rewrite Hdef in Hst. apply stable_of_true in Hst.
    rewrite spec_threshold_value.
    pose proof (votes_suffix _ _ (suffix_last_window _ _ Hsuf Hlen)). lia.
  - discriminate.
  - exfalso. eapply fresh_first_unstable; [exact Hrun | reflexivity |].
    apply Hall. lia.
Qed.

Lemma gesture_event_requires_held_stability_witness :
  exists s' log,
    run init steady_fist = Ok (s', log) /\ emitted_at log 15 /\
    exists j tj tk,
      (S j < 15)%nat /\ unstable_at log j /\
      (forall i, (j < i <= 15)%nat ->
         stable_at log i /\
         spec_threshold <= votes (last_window (take (S i) (signals steady_fist)))) /\
      clock_at steady_fist (S j) tj /\ clock_at steady_fist 15 tk /\
      (LOCK_HOLD_SECONDS <= tk - tj)%Q.
Proof.
  destruct (run init steady_fist) as [[s' log]|] eqn:Hrun;
    [|vm_compute in Hrun; discriminate].
  exists s', log. split; [reflexivity|].
  assert (emitted_at log 15) as Hem.
  { vm_compute in Hrun. injection Hrun as _ <-. eexists. split; reflexivity. }
  split; [exact Hem|].
  exact (gesture_event_requires_held_stability steady_fist s' log 15 Hrun Hem).
Defined.

(** C2. Right after an emission the window is empty and the hold state is
    IDLE. From there the stabilizer keeps running on any frames, and
    whenever it emits again the window it emits on has at least
    [ceil(0.7 * W)] true entries, all of them signals observed after the
    earlier emission. *)
Theorem emission_clears_window (s s1 : state) (f : frame) (o : frame_out) :
  gesture_step s f = Ok (s1, o) -> emitted o = true ->
  frame_history s1 = [] /\ idle s1 /\
  forall fs, exists s2 log,
    run s1 fs = Ok (s2, log) /\
    forall k, emitted_at log k ->
      exists ok, log !! k = Some ok /\
        suffix (window ok) (take (S k) (signals fs)) /\
        spec_threshold <= votes (window ok).
Proof.
  intros Hstep He. apply gesture_step_cases in Hstep.
  destruct Hstep; simpl in He; try discriminate.
  split; [reflexivity|]. split; [reflexivity|].
  intros fs.
  set (s1 := {| frame_history := []; gesture_start_time := Some t0;
                last_gesture_state := false |}).
  assert (well_formed s1) as Hwf by (unfold well_formed; simpl; discriminate).
  destruct (run_total fs s1 Hwf) as (s2 & log & Hrun & _ & _).
  exists s2, log. split; [assumption|].
  intros k (ok & Hk & Hek). exists ok. split; [assumption|].
  assert (Z.of_nat (length (frame_history s1)) <= GESTURE_FRAME_WINDOW) as Hbound
    by (unfold GESTURE_FRAME_WINDOW; simpl; lia).
  destruct (run_window fs s1 s2 log Hrun Hbound) as [_ Hlog].
  destruct (Hlog k ok Hk) as (_ & Hdef & Hsuf). simpl in Hsuf.
  split; [assumption|].
  pose proof (run_emitted_stable fs s1 s2 log Hrun k ok Hk Hek) as Hst.
  rewrite Hdef in Hst. apply stable_of_true in Hst.
  rewrite spec_threshold_value. assumption.
Qed.


Lemma emission_clears_window_witness :
  let s := {| frame_history := repeat true 10; gesture_start_time := Some 0%Q;
              last_gesture_state := true |} in
  let f := {| gesture_detected := true; now := 1%Q |} in
  exists s1 o,
    gesture_step s f = Ok (s1, o) /\ emitted o = true /\
    frame_history s1 = [] /\ idle s1 /\
    forall fs, exists s2 log,
      run s1 fs = Ok (s2, log) /\
      forall k, emitted_at log k ->
        exists ok, log !! k = Some ok /\
          suffix (window ok) (take (S k) (signals fs)) /\
          spec_threshold <= votes (window ok).
Proof.
  intros s f.
  destruct (gesture_step s f) as [[s1 o]|] eqn:Hstep;
    [|vm_compute in Hstep; discriminate].
  assert (emitted o = true) as He
    by (vm_compute in Hstep; injection Hstep as _ <-; reflexivity).
  exists s1, o. split; [reflexivity|]. split; [exact He|].
  exact (emission_clears_window s s1 f o Hstep He).
Defined.

End StabilizerFacts.


Module VoiceFacts.
Import Voice.
Local Open Scope string_scope.
Local Open Scope list_scope.

(** *** Substring containment *)

Lemma prefix_spec (p t : string) :
  PyStr.startswith p t = true <-> exists b, t = p +:+ b.
Proof.
  revert t. induction p as [|a p IH]; intros t; simpl.
  - split; [intros _; exists t; reflexivity | reflexivity].
  - destruct t as [|c t].
    + split; [discriminate | intros [b Hb]; discriminate].
    + destruct (Ascii.eqb_spec a c) as [-> | Hne]; simpl.
      * rewrite IH. split; intros [b Hb]; exists b.
        -- change (String c t = String c (p +:+ b)). rewrite Hb. reflexivity.
        -- change (String c t = String c (p +:+ b)) in Hb. injection Hb. auto.
      * split; [discriminate | intros [b Hb]].
        change (String c t = String a (p +:+ b)) in Hb. injection Hb. congruence.
Qed.

Lemma contains_unfold (p t : string) :
  PyStr.contains p t =
  PyStr.startswith p t ||
  match t with EmptyString => false | String _ t' => PyStr.contains p t' end.
Proof. destruct t; reflexivity. Qed.

(** [contains phrase text] is Python's [phrase in text]: the phrase occurs
    somewhere inside the text. *)
Lemma contains_spec (p t : string) :
  PyStr.contains p t = true <-> exists a b, t = a +:+ p +:+ b.
Proof.
  split.
  - induction t as [|c t IH]; rewrite contains_unfold; intros H;
      apply orb_true_iff in H as [H | H].
    + apply prefix_spec in H as [b Hb]. exists EmptyString, b. exact Hb.
    + discriminate.
    + apply prefix_spec in H as [b Hb]. exists EmptyString, b. exact Hb.
    + destruct (IH H) as (a & b & ->). exists (String c a), b. reflexivity.
  - intros (a & b & ->). induction a as [|c a IH]; rewrite contains_unfold.
    + apply orb_true_iff. left. apply prefix_spec. exists b. reflexivity.
    + apply orb_true_iff. right. exact IH.
Qed.

(** The loop with [break] stops at the first phrase that matches. *)
Lemma scan_phrases_find (phrases : list string) (text : string) (q : ActionQueue.t) :
  scan_phrases phrases text q =
  match find (fun phrase => PyStr.contains phrase text) phrases with
  | Some phrase =>
      (q ++ [("voice", text)], [Print ("Voice trigger detected: " +:+ phrase)])
  | None => (q, [])
  end.
Proof.
  induction phrases as [|p ps IH]; simpl; [reflexivity|].
  destruct (PyStr.contains p text); [reflexivity | exact IH].
Qed.

(** C5. For every recognized transcript the listener lowercases it and
    tries the trigger phrases in order by substring containment; at the
    first phrase that matches it puts exactly one [("voice", text)] item on
    the queue, [text] being the whole lowercased transcript, and stops; with
    no match the queue is unchanged. The transcript "please lock my laptop
    now" puts one VOICE item carrying the whole transcript. *)
Theorem voice_trigger_first_match (transcript : string) (q : ActionQueue.t) :
  let text := PyStr.lower transcript in
  match find (fun phrase => PyStr.contains phrase text) VOICE_KEY_PHRASES with
  | Some phrase =>
      voice_iteration (Heard transcript) q =
      (q ++ [("voice", text)],
       [Print "Listening for command..."; Print ("Heard (voice): " +:+ text);
        Print ("Voice trigger detected: " +:+ phrase)])
  | None =>
      voice_iteration (Heard transcript) q =
      (q, [Print "Listening for command..."; Print ("Heard (voice): " +:+ text)])
  end
  /\ In "lock my laptop" VOICE_KEY_PHRASES
  /\ voice_iteration (Heard "please lock my laptop now") [] =
     ([("voice", "please lock my laptop now")],
      [Print "Listening for command...";
       Print "Heard (voice): please lock my laptop now";
       Print "Voice trigger detected: lock my laptop"]).
Proof.
  intros text. split; [|split].
  - unfold voice_iteration. fold text. rewrite scan_phrases_find.
    destruct (find _ VOICE_KEY_PHRASES); reflexivity.
  - simpl. auto.
  - reflexivity.
Qed.

End VoiceFacts.

Module ControllerFacts.
Import Controller.
Local Open Scope string_scope.
Local Open Scope list_scope.

Lemma debounced_true (now last : Q) :
  debounced now last = true <-> (now - last < DEBOUNCE_SECONDS)%Q.
Proof.
  unfold debounced. rewrite negb_true_iff.
  split.
  - intros H. apply Qnot_le_lt. intros Hle. apply Qle_bool_iff in Hle. congruence.
  - intros H. destruct (Qle_bool _ _) eqn:E; [|reflexivity].
    apply Qle_bool_iff in E. exfalso. apply (Qlt_not_le _ _ H). exact E.
Qed.


Lemma perform_lock_invokes (env : environment) :
  executor_invoked (perform_lock env) = true.
Proof.
  unfold perform_lock.
  repeat match goal with
  | |- context [if ?b then _ else _] => destruct b
  end; reflexivity.
Qed.

Lemma lock_workstation_accepts (env : environment) (now last : Q) :
  debounced now last = false ->
  exists tr, lock_workstation env now last = (now, tr, Exit 0)
             /\ executor_invoked tr = true.
Proof.
  intros H. unfold lock_workstation. rewrite H. eexists. split; [reflexivity|].
  unfold executor_invoked. rewrite !existsb_app.
  fold (executor_invoked (perform_lock env)). rewrite perform_lock_invokes.
  rewrite orb_true_r. reflexivity.
Qed.

Lemma lock_workstation_drops (env : environment) (now last : Q) :
  debounced now last = true ->
  lock_workstation env now last = (last, [Print "Lock suppressed (debounce)."], Return).
Proof. intros H. unfold lock_workstation. rewrite H. reflexivity. Qed.


(** *** The claims about the lock controller *)

(** C10. A call within [DEBOUNCE_SECONDS] of the last accepted lock leaves
    everything as it was: [last_lock_time] keeps its value, the only effect
    is the log line (no countdown, no speech, no lock executor), and the
    call returns instead of exiting. *)
Theorem debounce_drop_leaves_state (env : environment) (now last : Q) :
  (now - last < DEBOUNCE_SECONDS)%Q ->
  lock_workstation env now last =
    (last, [Print "Lock suppressed (debounce)."], Return)
  /\ executor_invoked (snd (fst (lock_workstation env now last))) = false.
Proof.
  intros H. apply debounced_true in H.
  rewrite (lock_workstation_drops env now last H). split; reflexivity.
Qed.

Lemma debounce_drop_leaves_state_witness :
  (101 - 100 < DEBOUNCE_SECONDS)%Q /\
  lock_workstation quiet_linux 101 100 =
    (100%Q, [Print "Lock suppressed (debounce)."], Return)
  /\ executor_invoked (snd (fst (lock_workstation quiet_linux 101 100))) = false.
Proof.
  assert (101 - 100 < DEBOUNCE_SECONDS)%Q as H by reflexivity.
  split; [exact H|]. exact (debounce_drop_leaves_state quiet_linux 101 100 H).
Defined.



End ControllerFacts.

Module InstanceFacts.
Import Instance.
Local Open Scope string_scope.
Local Open Scope list_scope.

Lemma bind_listen_held (ports : gset Z) (port : Z) :
  port ∈ ports -> bind_listen ports port = Raise OSError.
Proof. intros H. unfold bind_listen. rewrite bool_decide_eq_true_2; auto. Qed.

Lemma bind_listen_free (ports : gset Z) (port : Z) :
  port ∉ ports -> bind_listen ports port = Ok ({[port]} ∪ ports).
Proof. intros H. unfold bind_listen. rewrite bool_decide_eq_false_2; auto. Qed.

Lemma startup_refused (ports : gset Z) :
  _SINGLETON_PORT ∈ ports ->
  startup ports =
    (ports, [Print "Another GenLock instance is already running. Exiting."], Exit 0).
Proof. intros H. unfold startup. rewrite bind_listen_held; auto. Qed.

(** An exception of [send] or [close] is swallowed by the handler of line
    170: nothing more happens on that connection and the loop goes on. *)
Lemma serve_send_raises (c : connection) (text : string) :
  accept_raises c = false -> received c = Ok text -> send_raises c = true ->
  serve c = ([], Return).
Proof.
  intros Ha Hr Hs. unfold serve. rewrite Ha, Hr, Hs.
  destruct (String.eqb _ _); reflexivity.
Qed.

Example strip_lower_stop :
  PyStr.lower (PyStr.strip (String (ascii_of_nat 9) "Stop  ")) = "stop" /\
  PyStr.lower (PyStr.strip "stop now") = "stop now" /\
  PyStr.lower (PyStr.strip "s top") = "s top".
Proof. repeat split; reflexivity. Qed.




End InstanceFacts.

Module MainFacts.
Import Main.
Local Open Scope string_scope.
Local Open Scope list_scope.

Lemma lock_workstation_exit_code (env : Controller.environment) (now last last' : Q)
    (tr : list event) (code : Z) :
  Controller.lock_workstation env now last = (last', tr, Exit code) -> code = 0.
Proof.
  unfold Controller.lock_workstation.
  destruct (Controller.debounced now last); intros [= _ _ <-]; reflexivity.
Qed.

Lemma process_action_exit_code (env : Controller.environment) (now last last' : Q)
    (q q' : ActionQueue.t) (tr : list event) (code : Z) :
  process_action env now q last = (q', last', tr, Exit code) -> code = 0.
Proof.
  unfold process_action. destruct (ActionQueue.get_nowait q) as [[[src payload] q1]|].
  - destruct (Controller.lock_workstation env now last) as [[l1 tr1] out] eqn:E.
    intros [= _ _ _ ->]. eapply lock_workstation_exit_code; eauto.
  - discriminate.
Qed.

Lemma pass_ok (env : Controller.environment) (s : state) (t : tick)
    (tr : list event) (e : pass_end) :
  Stabilizer.well_formed (stabilizer s) -> pass env s t = (tr, e) -> pass_end_ok e.
Proof.
  intros Hwf. unfold pass.
  destruct (ret t); simpl; [|intros [= _ <-]; exact I].
  destruct (Voice.voice_iterations (heard_before t) (action_q s)) as [q1 tr1].
  destruct (StabilizerFacts.gesture_step_total (stabilizer s) (frame t) Hwf)
    as (st & o & -> & Hwf').
  destruct (if Stabilizer.emitted o then _ else _) as [q2 tr2].
  destruct (Voice.voice_iterations (heard_after t) q2) as [q3 tr3].
  destruct (process_action env (lock_now t) q3 (last_lock_time s))
    as [[[q4 last] tr4] out] eqn:Hact.
  destruct out as [|code].
  - destruct (key_q t); intros [= _ <-]; simpl; auto.
  - intros [= _ <-]. simpl. eapply process_action_exit_code; eauto.
Qed.

Lemma loop_ok (env : Controller.environment) (ts : list tick) :
  forall (s : state) (tr : list event) (e : pass_end),
  Stabilizer.well_formed (stabilizer s) -> loop env s ts = (tr, e) -> pass_end_ok e.
Proof.
  induction ts as [|t ts IH]; intros s tr e Hwf; simpl.
  - intros [= _ <-]. exact Hwf.
  - destruct (pass env s t) as [tr1 e1] eqn:Hpass.
    pose proof (pass_ok env s t tr1 e1 Hwf Hpass) as Hok.
    destruct e1 as [s1| |code|x]; try (intros [= _ <-]; exact Hok).
    destruct (loop env s1 ts) as [tr2 e2] eqn:Hloop.
    intros [= _ <-]. eapply IH; eauto.
Qed.

(** Whenever the script has ended, its exit status is 0. *)
Lemma main_exit_status (camera_opened : bool) (env : Controller.environment)
    (ts : list tick) (code : Z) :
  exit_status (snd (main camera_opened env ts)) = Some code -> code = 0.
Proof.
  unfold main. destruct camera_opened; simpl; [|intros [= <-]; reflexivity].
  destruct (loop env init ts) as [tr e] eqn:Hloop.
  pose proof (loop_ok env ts init tr e StabilizerFacts.init_well_formed Hloop) as Hok.
  destruct e as [s1| |c|x]; simpl in *.
  - discriminate.
  - intros [= <-]. reflexivity.
  - intros [= <-]. exact Hok.
  - contradiction.
Qed.

(** Two spoken commands two seconds apart on a clock that reads 2 and 4:
    the loop handles both; the first is suppressed by the debounce against
    the initial [last_lock_time], the second locks and exits. *)
Example two_commands_on_an_early_clock :
  main true Controller.quiet_linux early_clock_ticks =
  ([ThreadStart "voice_listener";
    Print "Listening for command..."; Print "Heard (voice): lock it";
    Print "Voice trigger detected: lock it";
    Print "Action from: voice lock it"; Say "Lock command received";
    Print "Lock suppressed (debounce).";
    Print "Listening for command..."; Print "Heard (voice): secure the room";
    Print "Voice trigger detected: secure";
    Print "Action from: voice secure the room"; Say "Lock command received";
    Say "Locking in 3"; Sleep 1; Say "Locking in 2"; Sleep 1;
    Say "Locking in 1"; Sleep 1;
    Exec Controller.loginctl;
    Print "System locked. Exiting program..."; Say "System locked. Exiting.";
    Print "Exiting..."],
   Exited 0).
Proof. reflexivity. Qed.

(** C4, as stated, fails: with the camera unavailable at startup [main]
    prints and returns, and the script ends with exit status 0. *)
Lemma camera_unavailable_exits_zero :
  main false Controller.quiet_linux [] = ([Print "Cannot open camera"], Finished) /\
  exit_status (snd (main false Controller.quiet_linux [])) = Some 0.
Proof. split; reflexivity. Qed.

(** C4, amended. The exit code is 0 on every way the process ends: after a
    lock that was not debounced, whatever the lock executor did; when the
    singleton port is held; on the remote "stop"; and also when the camera
    is unavailable at startup. No run of the main script ends with another
    status. *)
Theorem exit_code_is_zero :
  (forall env now last,
     Controller.debounced now last = false ->
     snd (Controller.lock_workstation env now last) = Exit 0) /\
  (forall camera_opened env ts code,
     exit_status (snd (main camera_opened env ts)) = Some code -> code = 0) /\
  (forall env ts,
     main false env ts = ([Print "Cannot open camera"], Finished) /\
     exit_status (snd (main false env ts)) = Some 0) /\
  (forall ports : gset Z,
     Instance._SINGLETON_PORT ∈ ports -> snd (Instance.startup ports) = Exit 0) /\
  (forall text,
     PyStr.lower (PyStr.strip text) = "stop" ->
     snd (Instance.serve (Instance.delivers text)) = Exit 0).
Proof.
  split; [|split; [|split; [|split]]].
  - intros env now last H.
    destruct (ControllerFacts.lock_workstation_accepts env now last H) as (tr & -> & _).
    reflexivity.
  - apply main_exit_status.
  - intros env ts. split; reflexivity.
  - intros ports H. rewrite InstanceFacts.startup_refused; auto.
  - intros text H. unfold Instance.serve, Instance.delivers. simpl.
    rewrite H. reflexivity.
Qed.


Lemma exit_code_is_zero_witness :
  Controller.debounced 1700000000 Controller.initial_last_lock_time = false /\
  snd (Controller.lock_workstation Controller.quiet_linux 1700000000
         Controller.initial_last_lock_time) = Exit 0 /\
  snd (main true Controller.quiet_linux fist_ticks) = Exited 0 /\
  Instance._SINGLETON_PORT ∈ ({[Instance._SINGLETON_PORT]} : gset Z) /\
  snd (Instance.startup {[Instance._SINGLETON_PORT]}) = Exit 0 /\
  snd (Instance.serve (Instance.delivers "stop")) = Exit 0.
Proof.
  destruct exit_code_is_zero as (Hlock & Hmain & _ & Hsingle & Hstop).
  assert (Controller.debounced 1700000000 Controller.initial_last_lock_time = false)
    as Hd by reflexivity.
  assert (Instance._SINGLETON_PORT ∈ ({[Instance._SINGLETON_PORT]} : gset Z))
    as Hin by set_solver.
  split; [exact Hd|]. split; [exact (Hlock _ _ _ Hd)|].
  split; [vm_compute; reflexivity|].
  split; [exact Hin|]. split; [exact (Hsingle _ Hin)|].
  exact (Hstop "stop" eq_refl).
Defined.

End MainFacts.

(** * Further properties of the code *)

Module HoldFacts.
Import Stabilizer StabilizerFacts.

(** *** A hold that lasts long enough is reported *)

Lemma hold_emits (fs : list frame) :
  forall (s s' : state) (log : list frame_out) (k : nat) (t0 tk : Q),
  run s fs = Ok (s', log) ->
  last_gesture_state s = true -> gesture_start_time s = Some t0 ->
  (forall i, (i <= k)%nat -> stable_at log i) ->
  clock_at fs k tk -> (LOCK_HOLD_SECONDS <= tk - t0)%Q ->
  exists e, (e <= k)%nat /\ emitted_at log e.
Proof.
  induction fs as [|f fs IH]; intros s s' log k t0 tk Hrun Hl Ht Hall Hck Hq.
  - destruct Hck as (f & Hf & _). rewrite lookup_nil in Hf. discriminate.
  - apply run_cons in Hrun as (s1 & o & os & Hstep & Hrun & ->).
    apply gesture_step_cases in Hstep.
    destruct (Hall 0%nat ltac:(lia)) as (o0 & Ho0 & Hst0).
    simpl in Ho0. injection Ho0 as Heq. subst o0.
    inversion Hstep as [ Hst Hl' | t1 Hst Hl' Ht' Hq' | t1 Hst Hl' Ht' Hq' | Hst ];
      subst; simpl in Hst0; try congruence.
    + exists 0%nat. split; [lia|]. eexists. split; reflexivity.
    + assert (t1 = t0) as -> by congruence.
      destruct k as [|k].
      * destruct Hck as (f0 & Hf0 & <-). simpl in Hf0. injection Hf0 as <-.
        apply Qle_bool_iff in Hq. congruence.
      * destruct (IH _ s' os k t0 tk Hrun eq_refl eq_refl) as (e & He & Hem).
        -- intros i Hi. apply (Hall (S i)). lia.
        -- exact Hck.
        -- exact Hq.
        -- exists (S e). split; [lia | exact Hem].
Qed.

Lemma start_emits (fs : list frame) (s s' : state) (log : list frame_out)
    (k : nat) (t0 tk : Q) :
  run s fs = Ok (s', log) -> last_gesture_state s = false ->
  (forall i, (i <= k)%nat -> stable_at log i) -> (0 < k)%nat ->
  clock_at fs 0 t0 -> clock_at fs k tk -> (LOCK_HOLD_SECONDS <= tk - t0)%Q ->
  exists e, (0 < e <= k)%nat /\ emitted_at log e.
Proof.
  intros Hrun Hl Hall Hk Hc0 Hck Hq.
  destruct fs as [|f fs].
  { destruct Hc0 as (f & Hf & _). rewrite lookup_nil in Hf. discriminate. }
  apply run_cons in Hrun as (s1 & o & os & Hstep & Hrun & ->).
  apply gesture_step_cases in Hstep.
  destruct (Hall 0%nat ltac:(lia)) as (o0 & Ho0 & Hst0).
  simpl in Ho0. injection Ho0 as Heq. subst o0.
  destruct Hc0 as (f0 & Hf0 & <-). simpl in Hf0. injection Hf0 as <-.
  destruct k as [|k]; [lia|].
  inversion Hstep as [ Hst Hl' | t1 Hst Hl' Ht' Hq' | t1 Hst Hl' Ht' Hq' | Hst ];
    subst; simpl in Hst0; try congruence.
  destruct (hold_emits fs _ s' os k (now f) tk Hrun eq_refl eq_refl)
    as (e & He & Hem).
  - intros i Hi. apply (Hall (S i)). lia.
  - exact Hck.
  - exact Hq.
  - exists (S e). split; [lia | exact Hem].
Qed.

Lemma after_unstable_emits (j : nat) :
  forall (fs : list frame) (s s' : state) (log : list frame_out) (k : nat) (tj tk : Q),
  run s fs = Ok (s', log) -> unstable_at log j ->
  (forall i, (j < i <= k)%nat -> stable_at log i) -> (S j < k)%nat ->
  clock_at fs (S j) tj -> clock_at fs k tk -> (LOCK_HOLD_SECONDS <= tk - tj)%Q ->
  exists e, (S j < e <= k)%nat /\ emitted_at log e.
Proof.
  induction j as [|j IH]; intros fs s s' log k tj tk Hrun Hun Hall Hjk Hcj Hck Hq.
  - destruct fs as [|f fs].
    { destruct Hcj as (f & Hf & _). rewrite lookup_nil in Hf. discriminate. }
    apply run_cons in Hrun as (s1 & o & os & Hstep & Hrun & ->).
    apply gesture_step_cases in Hstep.
    destruct Hun as (o0 & Ho0 & Hst0). simpl in Ho0. injection Ho0 as Heq. subst o0.
    destruct k as [|k]; [lia|].
    inversion Hstep as [ Hst Hl' | t1 Hst Hl' Ht' Hq' | t1 Hst Hl' Ht' Hq' | Hst ];
      subst; simpl in Hst0; try congruence.
    destruct (start_emits fs _ s' os k tj tk Hrun eq_refl) as (e & He & Hem).
    + intros i Hi. apply (Hall (S i)). lia.
    + lia.
    + exact Hcj.
    + exact Hck.
    + exact Hq.
    + exists (S e). split; [lia | exact Hem].
  - destruct fs as [|f fs].
    { destruct Hcj as (f & Hf & _). rewrite lookup_nil in Hf. discriminate. }
    apply run_cons in Hrun as (s1 & o & os & Hstep & Hrun & ->).
    destruct k as [|k]; [lia|].
    destruct (IH fs s1 s' os k tj tk Hrun) as (e & He & Hem).
    + exact Hun.
    + intros i Hi. apply (Hall (S i)). lia.
    + lia.
    + exact Hcj.
    + exact Hck.
    + exact Hq.
    + exists (S e). split; [lia | exact Hem].
Qed.

(** X1. The converse of the hold rule: when the verdict turns true on the
    frame after an unstable frame [j], stays true up to a later frame [k],
    and the clock has moved by [LOCK_HOLD_SECONDS] or more between these
    two frames, then a GESTURE event is put on the queue on one of the
    frames after the turn, not later than [k]. *)
Theorem held_gesture_is_emitted
    (fs : list frame) (s' : state) (log : list frame_out) (j k : nat) (tj tk : Q) :
  run init fs = Ok (s', log) -> unstable_at log j ->
  (forall i, (j < i <= k)%nat -> stable_at log i) -> (S j < k)%nat ->
  clock_at fs (S j) tj -> clock_at fs k tk -> (LOCK_HOLD_SECONDS <= tk - tj)%Q ->
  exists e, (S j < e <= k)%nat /\ emitted_at log e.
Proof. apply after_unstable_emits. Qed.

Lemma held_gesture_is_emitted_witness :
  exists s' log e,
    run init steady_fist = Ok (s', log) /\ unstable_at log 5 /\
    (forall i, (5 < i <= 15)%nat -> stable_at log i) /\
    clock_at steady_fist 6 (6 # 10) /\ clock_at steady_fist 15 (15 # 10) /\
    (LOCK_HOLD_SECONDS <= (15 # 10) - (6 # 10))%Q /\
    (6 < e <= 15)%nat /\ emitted_at log e.
Proof.
  destruct (run init steady_fist) as [[s' log]|] eqn:Hrun;
    [|vm_compute in Hrun; discriminate].
  assert (unstable_at log 5) as Hun.
  { vm_compute in Hrun. injection Hrun as _ <-. eexists. split; reflexivity. }
  assert (forall i, (5 < i <= 15)%nat -> stable_at log i) as Hall.
  { vm_compute in Hrun. injection Hrun as _ <-. intros i Hi.
    assert (i = 6 \/ i = 7 \/ i = 8 \/ i = 9 \/ i = 10 \/ i = 11 \/ i = 12
            \/ i = 13 \/ i = 14 \/ i = 15)%nat as Hc by lia.
    repeat destruct Hc as [-> | Hc]; try subst i; eexists; split; reflexivity. }
  assert (clock_at steady_fist 6 (6 # 10)) as Hc6 by (eexists; split; reflexivity).
  assert (clock_at steady_fist 15 (15 # 10)) as Hc15 by (eexists; split; reflexivity).
  assert (LOCK_HOLD_SECONDS <= (15 # 10) - (6 # 10))%Q as Hq
    by (vm_compute; discriminate).
  destruct (held_gesture_is_emitted steady_fist s' log 5 15 _ _
              Hrun Hun Hall ltac:(lia) Hc6 Hc15 Hq) as (e & He & Hem).
  exists s', log, e. auto 10.
Defined.

(** *** Events are spaced out *)

Lemma fresh_emit_late (fs : list frame) (s s' : state) (log : list frame_out) (k : nat) :
  run s fs = Ok (s', log) -> frame_history s = [] -> last_gesture_state s = false ->
  emitted_at log k -> (7 <= k)%nat.
Proof.
  intros Hrun Hnil Hl Hem.
  assert (Z.of_nat (length (frame_history s)) <= GESTURE_FRAME_WINDOW) as Hlen
    by (rewrite Hnil; unfold GESTURE_FRAME_WINDOW; simpl; lia).
  destruct (run_window fs s s' log Hrun Hlen) as [_ Hlog].
  destruct (run_emit_origin fs s s' log k Hrun Hem) as
    [ (j & tj & tk & Hjk & Hun & Hall & _) | [ (Hl1 & _) | (_ & Hall & _) ] ].
  - destruct (Hall (S j) ltac:(lia)) as (o & Ho & Hst).
    destruct (Hlog (S j) o Ho) as (_ & Hdef & Hsuf).
    rewrite Hnil in Hsuf. simpl app in Hsuf.
    apply suffix_length in Hsuf. rewrite length_take in Hsuf.
    rewrite Hdef in Hst. apply stable_of_true in Hst.
    pose proof (votes_bounds (window o)). lia.
  - congruence.
  - exfalso. eapply fresh_first_unstable; [exact Hrun | exact Hnil |].
    apply Hall. lia.
Qed.

(** After the frame that emits, the run goes on from an empty window and
    the idle state. *)
Lemma emit_then_fresh (fs : list frame) :
  forall (s s' : state) (log : list frame_out) (k : nat),
  run s fs = Ok (s', log) -> emitted_at log k ->
  exists s1 log2,
    run s1 (drop (S k) fs) = Ok (s', log2) /\
    frame_history s1 = [] /\ last_gesture_state s1 = false /\
    log2 = drop (S k) log.
Proof.
  induction fs as [|f fs IH]; intros s s' log k Hrun (o & Hk & He).
  - simpl in Hrun. injection Hrun as <- <-. rewrite lookup_nil in Hk. discriminate.
  - apply run_cons in Hrun as (s1 & o1 & os & Hstep & Hrun & ->).
    destruct k as [|k]; simpl in Hk.
    + injection Hk as Heq. subst o1.
      apply gesture_step_cases in Hstep.
      destruct Hstep; simpl in He; try discriminate.
      eexists _, os. split; [exact Hrun|]. auto.
    + destruct (IH s1 s' os k Hrun) as (s2 & log2 & H1 & H2 & H3 & H4).
      { exists o. auto. }
      exists s2, log2. auto.
Qed.

(** X2. Events are spaced out: the stabilizer puts no GESTURE event on the
    queue during the first seven frames of a run, and any later event comes
    at least eight frames after it, however long the fist is held. *)
Theorem gesture_events_are_spaced
    (fs : list frame) (s' : state) (log : list frame_out) (k1 : nat) :
  run init fs = Ok (s', log) -> emitted_at log k1 ->
  (7 <= k1)%nat /\
  forall k2, emitted_at log k2 -> (k1 < k2)%nat -> (k1 + 8 <= k2)%nat.
Proof.
  intros Hrun H1. split.
  - eapply fresh_emit_late; [exact Hrun | reflexivity | reflexivity | exact H1].
  - intros k2 H2 Hlt.
    destruct (emit_then_fresh fs init s' log k1 Hrun H1)
      as (s1 & log2 & Hrun2 & Hnil & Hl & ->).
    assert (emitted_at (drop (S k1) log) (k2 - S k1)) as H2'.
    { destruct H2 as (o & Ho & He). exists o. split; [|exact He].
      rewrite lookup_drop. replace (S k1 + (k2 - S k1))%nat with k2 by lia. exact Ho. }
    pose proof (fresh_emit_late _ s1 s' _ _ Hrun2 Hnil Hl H2'). lia.
Qed.

Lemma gesture_events_are_spaced_witness :
  exists s' log,
    run init (steady_fist ++ steady_fist) = Ok (s', log) /\
    emitted_at log 15 /\ emitted_at log 31 /\ (7 <= 15)%nat /\
    forall k2, emitted_at log k2 -> (15 < k2)%nat -> (15 + 8 <= k2)%nat.
Proof.
  destruct (run init (steady_fist ++ steady_fist)) as [[s' log]|] eqn:Hrun;
    [|vm_compute in Hrun; discriminate].
  assert (emitted_at log 15) as H1.
  { vm_compute in Hrun. injection Hrun as _ <-. eexists. split; reflexivity. }
  assert (emitted_at log 31) as H2.
  { vm_compute in Hrun. injection Hrun as _ <-. eexists. split; reflexivity. }
  exists s', log. split; [reflexivity|]. split; [exact H1|]. split; [exact H2|].
  exact (gesture_events_are_spaced _ s' log 15 Hrun H1).
Defined.

End HoldFacts.

Module WindowFacts.
Import Stabilizer StabilizerFacts.

Lemma last_window_app (a b : list bool) :
  last_window (last_window a ++ b) = last_window (a ++ b).
Proof.
  unfold last_window. set (W := Z.to_nat GESTURE_FRAME_WINDOW).
  destruct (Nat.le_gt_cases (length a) W) as [Hle | Hgt].
  - replace (length a - W)%nat with 0%nat by lia. reflexivity.
  - rewrite !length_app, length_drop.
    replace (length a - (length a - W) + length b - W)%nat with (length b) by lia.
    destruct (Nat.le_gt_cases (length b) W) as [Hb | Hb].
    + rewrite drop_app_le by (rewrite length_drop; lia).
      rewrite drop_drop.
      rewrite (drop_app_le a b) by lia.
      f_equal. f_equal. lia.
    + rewrite drop_app_ge by (rewrite length_drop; lia).
      rewrite length_drop.
      rewrite (drop_app_ge a b) by lia.
      f_equal. lia.
Qed.

Lemma run_window_exact (fs : list frame) :
  forall (s s' : state) (log : list frame_out) (k : nat) (o : frame_out),
  run s fs = Ok (s', log) ->
  Z.of_nat (length (frame_history s)) <= GESTURE_FRAME_WINDOW ->
  (forall i, (i < k)%nat -> ~ emitted_at log i) ->
  log !! k = Some o ->
  window o = last_window (frame_history s ++ take (S k) (signals fs)).
Proof.
  induction fs as [|f fs IH]; intros s s' log k o Hrun Hlen Hno Hk.
  - simpl in Hrun. injection Hrun as <- <-. rewrite lookup_nil in Hk. discriminate.
  - apply run_cons in Hrun as (s1 & o1 & os & Hstep & Hrun & ->).
    apply gesture_step_cases, step_case_history in Hstep as (Hw & Hst & Hh).
    destruct k as [|k]; simpl in Hk.
    + injection Hk as Heq. subst o1. rewrite Hw.
      apply append_evict_fifo. exact Hlen.
    + destruct Hh as [Hh | [_ He]].
      2:{ exfalso. apply (Hno 0%nat); [lia|]. exists o1. auto. }
      assert (Z.of_nat (length (frame_history s1)) <= GESTURE_FRAME_WINDOW) as Hlen1
        by (rewrite Hh; apply append_evict_length; exact Hlen).
      rewrite (IH s1 s' os k o Hrun Hlen1); [| |exact Hk].
      * rewrite Hh, (append_evict_fifo _ _ Hlen), last_window_app.
        rewrite <- app_assoc. reflexivity.
      * intros i Hi Hem. apply (Hno (S i)); [lia|]. exact Hem.
Qed.

(** X3. Until the first event the window is exactly the last [W] signals
    observed (all of them while fewer than [W] were seen), and the verdict
    of the frame is the specification's test on them: at least
    [ceil(0.7 * W)] true. *)
Theorem window_is_last_signals
    (fs : list frame) (s' : state) (log : list frame_out) (k : nat) (o : frame_out) :
  run init fs = Ok (s', log) ->
  (forall i, (i < k)%nat -> ~ emitted_at log i) ->
  log !! k = Some o ->
  window o = last_window (take (S k) (signals fs)) /\
  stable o = spec_stable (last_window (take (S k) (signals fs))).
Proof.
  intros Hrun Hno Hk.
  assert (Z.of_nat (length (frame_history init)) <= GESTURE_FRAME_WINDOW) as Hlen
    by (unfold GESTURE_FRAME_WINDOW; simpl; lia).
  pose proof (run_window_exact fs init s' log k o Hrun Hlen Hno Hk) as Hw.
  simpl in Hw. split; [exact Hw|].
  destruct (run_window fs init s' log Hrun Hlen) as [_ Hlog].
  destruct (Hlog k o Hk) as (_ & Hdef & _).
  rewrite Hdef, Hw. unfold spec_stable. rewrite spec_threshold_value.
  apply stable_of_spec.
Qed.

Lemma window_is_last_signals_witness :
  exists s' log o,
    run init steady_fist = Ok (s', log) /\
    (forall i, (i < 12)%nat -> ~ emitted_at log i) /\
    log !! 12%nat = Some o /\
    window o = last_window (take 13 (signals steady_fist)) /\
    stable o = spec_stable (last_window (take 13 (signals steady_fist))).
Proof.
  destruct (run init steady_fist) as [[s' log]|] eqn:Hrun;
    [|vm_compute in Hrun; discriminate].
  assert (forall i, (i < 12)%nat -> ~ emitted_at log i) as Hno.
  { vm_compute in Hrun. injection Hrun as _ <-. intros i Hi (o & Ho & He).
    do 12 (destruct i as [|i]; [simpl in Ho; injection Ho as <-; discriminate|]).
    lia. }
  destruct (log !! 12%nat) as [o|] eqn:Hk.
  2:{ vm_compute in Hrun. injection Hrun as _ <-. discriminate. }
  exists s', log, o. split; [reflexivity|]. split; [exact Hno|].
  split; [exact Hk|].
  exact (window_is_last_signals steady_fist s' log 12 o Hrun Hno Hk).
Defined.

End WindowFacts.

Module VoiceThreadFacts.
Import Voice VoiceThread VoiceFacts.
Local Open Scope string_scope.
Local Open Scope list_scope.

Lemma lower_app (a b : string) :
  PyStr.lower (a +:+ b) = PyStr.lower a +:+ PyStr.lower b.
Proof.
  induction a as [|c a IH]; [reflexivity|].
  change (String (PyStr.lower_char c) (PyStr.lower (a +:+ b))
          = String (PyStr.lower_char c) (PyStr.lower a +:+ PyStr.lower b)).
  rewrite IH. reflexivity.
Qed.

Lemma find_existsb {A : Type} (f : A -> bool) (l : list A) :
  existsb f l = match find f l with Some _ => true | None => false end.
Proof.
  induction l as [|x l IH]; simpl; [reflexivity|].
  destruct (f x); [reflexivity | exact IH].
Qed.

Lemma voice_iteration_queue (r : recognition) (q : ActionQueue.t) :
  fst (voice_iteration r q) = q ++ voice_items [r].
Proof.
  destruct r as [transcript| | | |];
    try (simpl; rewrite app_nil_r; reflexivity).
  unfold voice_iteration, voice_items, flat_map, triggers.
  rewrite scan_phrases_find, find_existsb.
  destruct (find _ VOICE_KEY_PHRASES); simpl; [reflexivity | rewrite app_nil_r; reflexivity].
Qed.

Lemma voice_iterations_queue (rs : list recognition) (q : ActionQueue.t) :
  fst (voice_iterations rs q) = q ++ voice_items rs.
Proof.
  revert q. induction rs as [|r rs IH]; intros q.
  - simpl. rewrite app_nil_r. reflexivity.
  - simpl voice_iterations.
    pose proof (voice_iteration_queue r q) as H1.
    destruct (voice_iteration r q) as [q1 tr1]. simpl in H1.
    pose proof (IH q1) as H2.
    destruct (voice_iterations rs q1) as [q2 tr2]. simpl in H2. simpl fst.
    rewrite H2, H1.
    assert (voice_items (r :: rs) = voice_items [r] ++ voice_items rs) as ->.
    { unfold voice_items. simpl. rewrite app_nil_r. reflexivity. }
    rewrite <- app_assoc. reflexivity.
Qed.

(** X4. What the voice thread does to the queue: without a microphone,
    nothing; with one, it appends one ("voice", lowercased transcript) item
    for each transcript in which a trigger phrase occurs, in the order the
    transcripts were heard. Timeouts, unintelligible audio and recognizer
    errors add nothing, and items already on the queue are neither dropped
    nor reordered. *)
Theorem voice_thread_queue (microphone : bool) (rounds : list recognition)
    (q : ActionQueue.t) :
  fst (voice_listener microphone rounds q)
  = if microphone then q ++ voice_items rounds else q.
Proof.
  unfold voice_listener. destruct microphone; [|reflexivity].
  pose proof (voice_iterations_queue rounds q) as H.
  destruct (voice_iterations rounds q) as [q' tr]. exact H.
Qed.

Lemma contains_app (phrase pre post : string) :
  PyStr.contains phrase (pre +:+ phrase +:+ post) = true.
Proof. apply contains_spec. exists pre, post. reflexivity. Qed.

Lemma append_assoc (a b c : string) : (a +:+ b) +:+ c = a +:+ (b +:+ c).
Proof.
  induction a as [|x a IH]; [reflexivity|].
  change (String x ((a +:+ b) +:+ c) = String x (a +:+ (b +:+ c))).
  rewrite IH. reflexivity.
Qed.

Lemma contains_trans (a b c : string) :
  PyStr.contains a b = true -> PyStr.contains b c = true -> PyStr.contains a c = true.
Proof.
  intros H1 H2.
  apply contains_spec in H1 as (p1 & s1 & ->).
  apply contains_spec in H2 as (p2 & s2 & ->).
  apply contains_spec. exists (p2 +:+ p1), (s1 +:+ s2).
  rewrite !append_assoc. reflexivity.
Qed.

(** X5. Matching ignores letter case and position: a transcript in which
    some trigger phrase occurs anywhere, in any mix of upper and lower
    case, puts exactly one VOICE item on the queue, carrying the whole
    lowercased transcript. *)
Theorem any_case_phrase_triggers
    (pre word post phrase : string) (q : ActionQueue.t) :
  In phrase VOICE_KEY_PHRASES -> PyStr.lower word = phrase ->
  fst (voice_iteration (Heard (pre +:+ word +:+ post)) q)
  = q ++ [("voice", PyStr.lower (pre +:+ word +:+ post))].
Proof.
  intros Hin Hlow. rewrite voice_iteration_queue. simpl voice_items.
  assert (triggers (PyStr.lower (pre +:+ word +:+ post)) = true) as ->.
  { unfold triggers. apply existsb_exists. exists phrase. split; [exact Hin|].
    rewrite !lower_app, Hlow. apply contains_app. }
  reflexivity.
Qed.

Lemma any_case_phrase_triggers_witness :
  In "secure" VOICE_KEY_PHRASES /\ PyStr.lower "SECURE" = "secure" /\
  fst (voice_iteration (Heard ("that was in" +:+ "SECURE" +:+ " of you")) [])
  = [] ++ [("voice", PyStr.lower ("that was in" +:+ "SECURE" +:+ " of you"))].
Proof.
  assert (In "secure" VOICE_KEY_PHRASES) as Hin by (simpl; auto 10).
  split; [exact Hin|]. split; [reflexivity|].
  exact (any_case_phrase_triggers "that was in" "SECURE" " of you" "secure" []
           Hin eq_refl).
Defined.

(** X6. Every trigger phrase contains "lock" or "secure": a transcript
    whose lowercased text contains neither word puts nothing on the
    queue. *)
Theorem no_keyword_no_trigger (transcript : string) (q : ActionQueue.t) :
  PyStr.contains "lock" (PyStr.lower transcript) = false ->
  PyStr.contains "secure" (PyStr.lower transcript) = false ->
  fst (voice_iteration (Heard transcript) q) = q.
Proof.
  intros Hlock Hsec. rewrite voice_iteration_queue. simpl voice_items.
  assert (triggers (PyStr.lower transcript) = false) as ->.
  { unfold triggers. apply not_true_is_false. intros H.
    apply existsb_exists in H as (phrase & Hin & Hc).
    assert (PyStr.contains "lock" phrase = true \/ PyStr.contains "secure" phrase = true)
      as [Hk | Hk].
    { simpl in Hin.
      destruct Hin as [<- | [<- | [<- | [<- | [<- | []]]]]];
        (left; reflexivity) || (right; reflexivity). }
    - rewrite (contains_trans _ _ _ Hk Hc) in Hlock. discriminate.
    - rewrite (contains_trans _ _ _ Hk Hc) in Hsec. discriminate. }
  simpl. rewrite app_nil_r. reflexivity.
Qed.

Lemma no_keyword_no_trigger_witness :
  PyStr.contains "lock" (PyStr.lower "Look at my laptop") = false /\
  PyStr.contains "secure" (PyStr.lower "Look at my laptop") = false /\
  fst (voice_iteration (Heard "Look at my laptop") [("gesture", "fist")])
  = [("gesture", "fist")].
Proof.
  split; [reflexivity|]. split; [reflexivity|].
  exact (no_keyword_no_trigger "Look at my laptop" [("gesture", "fist")]
           eq_refl eq_refl).
Defined.

End VoiceThreadFacts.

Module ExecutorFacts.
Import Controller Trace.
Local Open Scope string_scope.
Local Open Scope list_scope.

(** X7. On Linux the three lock commands are tried in a fixed order and
    only as fallbacks: [loginctl] always runs, each later command runs only
    after every earlier one raised, nothing runs after a command that did
    not raise, and "Lock failed" is printed exactly when all three
    raised. *)
Theorem linux_fallback_chain (env : environment) :
  platform env = "linux" ->
  let chain := [loginctl; gnome_screensaver; xdg_screensaver] in
  let tr := perform_lock env in
  exists n,
    (1 <= n <= 3)%nat /\ executed tr = take n chain /\
    (forall i c, chain !! i = Some c -> (S i < n)%nat -> raises env c = true) /\
    (forall c, chain !! (n - 1)%nat = Some c -> (n < 3)%nat -> raises env c = false) /\
    (In (PrintExc "Lock failed:") tr <-> forall c, In c chain -> raises env c = true).
Proof.
  intros Hplat chain tr. subst chain tr. unfold perform_lock. rewrite Hplat. simpl.
  destruct (raises env loginctl) eqn:H1;
    [destruct (raises env gnome_screensaver) eqn:H2;
       [destruct (raises env xdg_screensaver) eqn:H3|]|].
  - exists 3%nat. split; [lia|]. split; [reflexivity|]. split; [|split].
    + intros [|[|[|i]]] c Hc Hi; simpl in Hc; try lia; injection Hc as <-; assumption.
    + intros c _ Hn. lia.
    + split; [|intros _; simpl; auto 10].
      intros _ c [<- | [<- | [<- | []]]]; assumption.
  - exists 3%nat. split; [lia|]. split; [reflexivity|]. split; [|split].
    + intros [|[|[|i]]] c Hc Hi; simpl in Hc; try lia; injection Hc as <-; assumption.
    + intros c _ Hn. lia.
    + split.
      * simpl. intros [H | [H | [H | []]]]; discriminate.
      * intros Hall. rewrite (Hall xdg_screensaver) in H3; [discriminate|].
        simpl. auto.
  - exists 2%nat. split; [lia|]. split; [reflexivity|]. split; [|split].
    + intros [|[|i]] c Hc Hi; simpl in Hc; try lia; injection Hc as <-; assumption.
    + intros c Hc _. simpl in Hc. injection Hc as <-. assumption.
    + split.
      * simpl. intros [H | [H | []]]; discriminate.
      * intros Hall. rewrite (Hall gnome_screensaver) in H2; [discriminate|].
        simpl. auto.
  - exists 1%nat. split; [lia|]. split; [reflexivity|]. split; [|split].
    + intros [|i] c Hc Hi; simpl in Hc; lia.
    + intros c Hc _. simpl in Hc. injection Hc as <-. assumption.
    + split.
      * simpl. intros [H | []]; discriminate.
      * intros Hall. rewrite (Hall loginctl) in H1; [discriminate|].
        simpl. auto.
Qed.

Lemma linux_fallback_chain_witness :
  platform quiet_linux = "linux" /\
  exists n,
    (1 <= n <= 3)%nat /\
    executed (perform_lock quiet_linux)
      = take n [loginctl; gnome_screensaver; xdg_screensaver].
Proof.
  split; [reflexivity|].
  destruct (linux_fallback_chain quiet_linux eq_refl) as (n & Hn & Hex & _).
  exists n. split; [exact Hn | exact Hex].
Defined.

Lemma countdown_unfold (env : environment) :
  countdown env =
  (speak env "Locking in 3" ++ [Sleep 1]) ++ (speak env "Locking in 2" ++ [Sleep 1])
    ++ (speak env "Locking in 1" ++ [Sleep 1]) ++ [].
Proof. reflexivity. Qed.

(** X8. An accepted lock always goes through the whole countdown first:
    "Locking in 3", "Locking in 2", "Locking in 1" are spoken in this order
    and three seconds are slept, whether or not text-to-speech fails, and
    no lock command runs before the countdown is over; the lock executor
    comes after it. *)
Theorem countdown_precedes_lock (env : environment) (now last : Q) :
  debounced now last = false ->
  exists rest,
    snd (fst (lock_workstation env now last)) = countdown env ++ rest /\
    said (countdown env) = ["Locking in 3"; "Locking in 2"; "Locking in 1"] /\
    slept (countdown env) = 3 /\
    executed (countdown env) = [] /\
    executor_invoked (countdown env) = false /\
    executor_invoked rest = true.
Proof.
  intros H. unfold lock_workstation. rewrite H. simpl snd.
  eexists. split; [reflexivity|].
  rewrite countdown_unfold. unfold speak.
  destruct (tts_raises env "Locking in 3"), (tts_raises env "Locking in 2"),
           (tts_raises env "Locking in 1");
    (repeat split; try reflexivity);
    unfold executor_invoked; rewrite existsb_app;
    fold (executor_invoked (perform_lock env));
    rewrite ControllerFacts.perform_lock_invokes; reflexivity.
Qed.

Lemma countdown_precedes_lock_witness :
  debounced 1700000000 0 = false /\
  exists rest,
    snd (fst (lock_workstation quiet_linux 1700000000 0))
      = countdown quiet_linux ++ rest /\
    said (countdown quiet_linux) = ["Locking in 3"; "Locking in 2"; "Locking in 1"] /\
    slept (countdown quiet_linux) = 3 /\
    executed (countdown quiet_linux) = [] /\
    executor_invoked (countdown quiet_linux) = false /\
    executor_invoked rest = true.
Proof.
  split; [reflexivity|].
  exact (countdown_precedes_lock quiet_linux 1700000000 0 eq_refl).
Defined.

End ExecutorFacts.

Module LoopFacts.
Import Main.
Local Open Scope string_scope.
Local Open Scope list_scope.

Lemma speak_no_executor (env : Controller.environment) (text : string) :
  Controller.executor_invoked (Controller.speak env text) = false.
Proof. unfold Controller.speak. destruct (Controller.tts_raises env text); reflexivity. Qed.

Lemma voice_iteration_no_executor (r : Voice.recognition) (q : ActionQueue.t) :
  Controller.executor_invoked (snd (Voice.voice_iteration r q)) = false.
Proof.
  destruct r as [transcript| | | |]; try reflexivity.
  unfold Voice.voice_iteration. rewrite VoiceFacts.scan_phrases_find.
  destruct (find _ Voice.VOICE_KEY_PHRASES); reflexivity.
Qed.

Lemma voice_iterations_no_executor (rs : list Voice.recognition) (q : ActionQueue.t) :
  Controller.executor_invoked (snd (Voice.voice_iterations rs q)) = false.
Proof.
  revert q. induction rs as [|r rs IH]; intros q; [reflexivity|].
  simpl Voice.voice_iterations.
  pose proof (voice_iteration_no_executor r q) as H1.
  destruct (Voice.voice_iteration r q) as [q1 tr1].
  pose proof (IH q1) as H2.
  destruct (Voice.voice_iterations rs q1) as [q2 tr2]. simpl in *.
  unfold Controller.executor_invoked in *. rewrite existsb_app, H1, H2. reflexivity.
Qed.

(** What the poll of lines 222-230 does, by the way it ends. *)
Lemma process_action_cases (env : Controller.environment) (now last last' : Q)
    (q q' : ActionQueue.t) (tr : list event) (out : outcome) :
  process_action env now q last = (q', last', tr, out) ->
  q' = tail q /\
  match out with
  | Return =>
      last' = last /\ Controller.executor_invoked tr = false /\
      (q = [] \/ Controller.debounced now last = true)
  | Exit code =>
      code = 0 /\ last' = now /\ Controller.executor_invoked tr = true /\
      q <> [] /\ Controller.debounced now last = false
  end.
Proof.
  unfold process_action. destruct q as [|[src payload] q0]; simpl.
  - intros [= <- <- <- <-]. auto.
  - destruct (Controller.debounced now last) eqn:Hd.
    + rewrite (ControllerFacts.lock_workstation_drops env now last Hd).
      intros [= <- <- <- <-]. split; [reflexivity|]. split; [reflexivity|].
      split; [|auto].
      unfold Controller.executor_invoked. simpl.
      fold (Controller.executor_invoked
              (Controller.speak env "Lock command received" ++
               [Print "Lock suppressed (debounce)."])).
      unfold Controller.executor_invoked. rewrite existsb_app.
      fold (Controller.executor_invoked (Controller.speak env "Lock command received")).
      rewrite speak_no_executor. reflexivity.
    + destruct (ControllerFacts.lock_workstation_accepts env now last Hd)
        as (tr1 & -> & Htr1).
      intros [= <- <- <- <-]. split; [reflexivity|]. split; [reflexivity|].
      split; [reflexivity|]. split; [|split; [discriminate | reflexivity]].
      unfold Controller.executor_invoked in *. simpl. rewrite existsb_app, Htr1.
      apply orb_true_r.
Qed.

(** One pass of the loop, by the way it ends. *)
Lemma pass_cases (env : Controller.environment) (s : state) (t : tick)
    (tr : list event) (e : pass_end) :
  Stabilizer.well_formed (stabilizer s) -> pass env s t = (tr, e) ->
  match e with
  | Next s' =>
      ret t = true /\ key_q t = false /\
      Controller.executor_invoked tr = false /\
      last_lock_time s' = last_lock_time s /\
      Stabilizer.well_formed (stabilizer s') /\
      exists o,
        Stabilizer.gesture_step (stabilizer s) (frame t) = Ok (stabilizer s', o) /\
        action_q s' =
          tail (action_q s ++ VoiceThread.voice_items (heard_before t)
                  ++ (if Stabilizer.emitted o then [("gesture", "fist")] else [])
                  ++ VoiceThread.voice_items (heard_after t))
  | Break => Controller.executor_invoked tr = false
  | SystemExit code => code = 0 /\ Controller.executor_invoked tr = true
  | Uncaught _ => False
  end.
Proof.
  intros Hwf. unfold pass.
  destruct (ret t); simpl; [|intros [= <- <-]; reflexivity].
  pose proof (VoiceThreadFacts.voice_iterations_queue (heard_before t) (action_q s)) as Hq1.
  pose proof (voice_iterations_no_executor (heard_before t) (action_q s)) as Hx1.
  destruct (Voice.voice_iterations (heard_before t) (action_q s)) as [q1 tr1].
  simpl in Hq1, Hx1.
  destruct (StabilizerFacts.gesture_step_total (stabilizer s) (frame t) Hwf)
    as (st & o & Hstep & Hwf').
  rewrite Hstep.
  set (put := if Stabilizer.emitted o
              then (ActionQueue.put q1 ("gesture", "fist"),
                    [Print "Gesture trigger detected (fist)."])
              else (q1, [])).
  assert (fst put = q1 ++ (if Stabilizer.emitted o then [("gesture", "fist")] else [])
          /\ Controller.executor_invoked (snd put) = false) as [Hq2 Hx2].
  { subst put. destruct (Stabilizer.emitted o); simpl;
      [split; reflexivity | rewrite app_nil_r; split; reflexivity]. }
  destruct put as [q2 tr2]. simpl in Hq2, Hx2.
  pose proof (VoiceThreadFacts.voice_iterations_queue (heard_after t) q2) as Hq3.
  pose proof (voice_iterations_no_executor (heard_after t) q2) as Hx3.
  destruct (Voice.voice_iterations (heard_after t) q2) as [q3 tr3].
  simpl in Hq3, Hx3.
  destruct (process_action env (lock_now t) q3 (last_lock_time s))
    as [[[q4 last] tr4] out] eqn:Hact.
  apply process_action_cases in Hact as (Hq4 & Hout).
  assert (forall b, Controller.executor_invoked tr4 = b ->
            Controller.executor_invoked (tr1 ++ tr2 ++ tr3 ++ tr4) = b) as Hcat.
  { intros b Hb. unfold Controller.executor_invoked in *.
    rewrite !existsb_app, Hx1, Hx2, Hx3, Hb. reflexivity. }
  destruct out as [|code].
  - destruct Hout as (Hlast & Hx4 & _).
    destruct (key_q t); intros [= <- <-]; [apply Hcat; exact Hx4|].
    simpl. split; [reflexivity|]. split; [reflexivity|].
    split; [apply Hcat; exact Hx4|]. split; [exact Hlast|]. split; [exact Hwf'|].
    exists o. split; [reflexivity|].
    rewrite Hq4, Hq3, Hq2, Hq1, <- !app_assoc. reflexivity.
  - destruct Hout as (Hc & _ & Hx4 & _).
    intros [= <- <-]. split; [exact Hc | apply Hcat; exact Hx4].
Qed.

(** The loop as a whole, by the way it ends. *)
Lemma loop_cases (env : Controller.environment) (ts : list tick) :
  forall (s : state) (tr : list event) (e : pass_end),
  Stabilizer.well_formed (stabilizer s) -> loop env s ts = (tr, e) ->
  match e with
  | Next s' =>
      Controller.executor_invoked tr = false /\
      last_lock_time s' = last_lock_time s /\
      Stabilizer.well_formed (stabilizer s')
  | Break => Controller.executor_invoked tr = false
  | SystemExit code => code = 0 /\ Controller.executor_invoked tr = true
  | Uncaught _ => False
  end.
Proof.
  induction ts as [|t ts IH]; intros s tr e Hwf; simpl.
  - intros [= <- <-]. auto.
  - destruct (pass env s t) as [tr1 e1] eqn:Hpass.
    pose proof (pass_cases env s t tr1 e1 Hwf Hpass) as Hc.
    destruct e1 as [s1| |code|x]; try (intros [= <- <-]; exact Hc).
    destruct Hc as (_ & _ & Hx1 & Hl1 & Hwf1 & _).
    destruct (loop env s1 ts) as [tr2 e2] eqn:Hloop.
    pose proof (IH s1 tr2 e2 Hwf1 Hloop) as Hc2.
    intros [= <- <-].
    assert (forall b, Controller.executor_invoked tr2 = b ->
              Controller.executor_invoked (tr1 ++ tr2) = b) as Hcat.
    { intros b Hb. unfold Controller.executor_invoked in *.
      rewrite existsb_app, Hx1, Hb. reflexivity. }
    destruct e2 as [s2| |code|x]; try contradiction.
    + destruct Hc2 as (Hx2 & Hl2 & Hwf2). split; [apply Hcat; exact Hx2|].
      split; [congruence | exact Hwf2].
    + apply Hcat. exact Hc2.
    + destruct Hc2 as [Hc2 Hx2]. split; [exact Hc2 | apply Hcat; exact Hx2].
Qed.

(** X9. The lock executor and the exit go together: a run of the main
    script has invoked the lock executor exactly when it has ended through
    [sys.exit(0)]; a run that is still looping, or that ended because the
    camera failed or [q] was pressed, has not touched it. *)
Theorem executor_iff_exit (camera_opened : bool) (env : Controller.environment)
    (ts : list tick) :
  Controller.executor_invoked (fst (main camera_opened env ts)) = true
  <-> snd (main camera_opened env ts) = Exited 0.
Proof.
  unfold main. destruct camera_opened; simpl; [|split; discriminate].
  destruct (loop env init ts) as [tr e] eqn:Hloop.
  pose proof (loop_cases env ts init tr e StabilizerFacts.init_well_formed Hloop) as Hc.
  assert (forall rest, Controller.executor_invoked rest = false ->
            Controller.executor_invoked (ThreadStart "voice_listener" :: tr ++ rest)
            = Controller.executor_invoked tr) as Hcat.
  { intros rest Hr. unfold Controller.executor_invoked in *. simpl.
    rewrite existsb_app, Hr. apply orb_false_r. }
  destruct e as [s1| |code|x]; cbn [fst snd app].
  - destruct Hc as (Hx & _). unfold Controller.executor_invoked in *. simpl.
    rewrite Hx. split; discriminate.
  - rewrite (Hcat [Print "Exiting..."] eq_refl), Hc. split; discriminate.
  - destruct Hc as [-> Hx]. rewrite (Hcat [Print "Exiting..."] eq_refl), Hx.
    split; reflexivity.
  - contradiction.
Qed.

(** X10. While the loop is running [last_lock_time] still has its initial
    value 0: an accepted lock always ends the process, so the debounce
    check never sees the time of an earlier lock of the same run. *)
Theorem last_lock_time_stays_initial (camera_opened : bool)
    (env : Controller.environment) (ts : list tick) (tr : list event) (s : state) :
  main camera_opened env ts = (tr, Looping s) ->
  last_lock_time s = Controller.initial_last_lock_time.
Proof.
  unfold main. destruct camera_opened; simpl; [|discriminate].
  destruct (loop env init ts) as [tr1 e] eqn:Hloop.
  pose proof (loop_cases env ts init tr1 e StabilizerFacts.init_well_formed Hloop) as Hc.
  destruct e as [s1| |code|x]; try discriminate.
  intros [= _ <-]. destruct Hc as (_ & Hl & _). exact Hl.
Qed.

Lemma last_lock_time_stays_initial_witness :
  exists tr s,
    main true Controller.quiet_linux (take 1 early_clock_ticks) = (tr, Looping s) /\
    last_lock_time s = Controller.initial_last_lock_time.
Proof.
  destruct (main true Controller.quiet_linux (take 1 early_clock_ticks))
    as [tr [s| | |]] eqn:Hmain; try (vm_compute in Hmain; discriminate).
  exists tr, s. split; [reflexivity|].
  exact (last_lock_time_stays_initial true Controller.quiet_linux _ tr s Hmain).
Defined.

(** X11. One pass of the loop that goes round again has appended the new
    events to the queue in order (voice items heard before the gesture put,
    the gesture item if the stabilizer emitted, voice items heard after)
    and has removed exactly the oldest item, if there was one: an event
    suppressed by the debounce is consumed, not retried, and the others
    keep their order. *)
Theorem pass_queue_is_fifo (env : Controller.environment) (s s' : state) (t : tick)
    (tr : list event) :
  Stabilizer.well_formed (stabilizer s) ->
  pass env s t = (tr, Next s') ->
  exists o,
    Stabilizer.gesture_step (stabilizer s) (frame t) = Ok (stabilizer s', o) /\
    action_q s' =
      tail (action_q s ++ VoiceThread.voice_items (heard_before t)
              ++ (if Stabilizer.emitted o then [("gesture", "fist")] else [])
              ++ VoiceThread.voice_items (heard_after t)) /\
    last_lock_time s' = last_lock_time s.
Proof.
  intros Hwf Hpass.
  destruct (pass_cases env s t tr (Next s') Hwf Hpass)
    as (_ & _ & _ & Hl & _ & o & Hstep & Hq).
  exists o. auto.
Qed.

Lemma pass_queue_is_fifo_witness :
  let s := {| stabilizer := Stabilizer.init;
              action_q := [("voice", "lock it"); ("voice", "secure")];
              last_lock_time := 0 |} in
  let t := {| ret := true;
              frame := {| Stabilizer.gesture_detected := true; Stabilizer.now := 1 |};
              heard_before := [Voice.Heard "Lock computer"]; heard_after := [];
              lock_now := 2; key_q := false |} in
  exists tr s',
    pass Controller.quiet_linux s t = (tr, Next s') /\
    action_q s' = [("voice", "secure"); ("voice", "lock computer")].
Proof.
  intros s t.
  destruct (pass Controller.quiet_linux s t) as [tr [s'| | |]] eqn:Hpass;
    try (vm_compute in Hpass; discriminate).
  exists tr, s'. split; [reflexivity|].
  destruct (pass_queue_is_fifo Controller.quiet_linux s s' t tr
              StabilizerFacts.init_well_formed Hpass) as (o & Hstep & Hq & _).
  vm_compute in Hstep. injection Hstep as _ <-. exact Hq.
Defined.

(** X12. A confirmed gesture is acted on in the same pass: when the
    stabilizer emits on a frame and the debounce check passes, the pass
    ends in the lock executor and [sys.exit(0)]. *)
Theorem confirmed_gesture_locks (env : Controller.environment) (s : state) (t : tick)
    (st : Stabilizer.state) (o : Stabilizer.frame_out) :
  ret t = true ->
  Stabilizer.gesture_step (stabilizer s) (frame t) = Ok (st, o) ->
  Stabilizer.emitted o = true ->
  Controller.debounced (lock_now t) (last_lock_time s) = false ->
  exists tr, pass env s t = (tr, SystemExit 0) /\
             Controller.executor_invoked tr = true.
Proof.
  intros Hret Hstep Hem Hd.
  assert (Stabilizer.well_formed (stabilizer s)) as Hwf.
  { intros Hl. apply StabilizerFacts.gesture_step_cases in Hstep.
    destruct Hstep; simpl in Hem; try discriminate. eauto. }
  destruct (pass env s t) as [tr e] eqn:Hpass.
  pose proof (pass_cases env s t tr e Hwf Hpass) as Hc.
  exists tr.
  assert (exists code, e = SystemExit code) as [code ->].
  { revert Hpass. unfold pass. rewrite Hret, Hstep, Hem. simpl.
    pose proof (VoiceThreadFacts.voice_iterations_queue
                  (heard_before t) (action_q s)) as Hq1.
    destruct (Voice.voice_iterations (heard_before t) (action_q s)) as [q1 tr1].
    pose proof (VoiceThreadFacts.voice_iterations_queue (heard_after t)
                  (ActionQueue.put q1 ("gesture", "fist"))) as Hq3.
    destruct (Voice.voice_iterations (heard_after t) _) as [q3 tr3].
    simpl in Hq1, Hq3.
    destruct (process_action env (lock_now t) q3 (last_lock_time s))
      as [[[q4 last] tr4] out] eqn:Hact.
    apply process_action_cases in Hact as (_ & Hout).
    destruct out as [|code].
    - destruct Hout as (_ & _ & [Hnil | Hdeb]); [|congruence].
      exfalso. rewrite Hnil in Hq3. unfold ActionQueue.put in Hq3.
      destruct q1; discriminate.
    - intros [= _ <-]. eauto. }
  destruct Hc as [-> Hx]. auto.
Qed.

Lemma confirmed_gesture_locks_witness :
  let s := {| stabilizer :=
                {| Stabilizer.frame_history := repeat true 10;
                   Stabilizer.gesture_start_time := Some 0%Q;
                   Stabilizer.last_gesture_state := true |};
              action_q := []; last_lock_time := 0 |} in
  let t := {| ret := true;
              frame := {| Stabilizer.gesture_detected := true; Stabilizer.now := 1 |};
              heard_before := []; heard_after := [];
              lock_now := 1700000000; key_q := false |} in
  exists tr, pass Controller.quiet_linux s t = (tr, SystemExit 0) /\
             Controller.executor_invoked tr = true.
Proof.
  intros s t.
  destruct (Stabilizer.gesture_step (stabilizer s) (frame t)) as [[st o]|] eqn:Hstep;
    [|vm_compute in Hstep; discriminate].
  assert (Stabilizer.emitted o = true) as Hem
    by (vm_compute in Hstep; injection Hstep as _ <-; reflexivity).
  exact (confirmed_gesture_locks Controller.quiet_linux s t st o
           eq_refl Hstep Hem eq_refl).
Defined.

End LoopFacts.

Module ControlLoopFacts.
Import Instance ControlLoop VoiceThread.
Local Open Scope string_scope.
Local Open Scope list_scope.

Lemma serve_is_stop (c : connection) :
  snd (serve c) = if is_stop c then Exit 0 else Return.
Proof.
  unfold serve, is_stop.
  destruct (accept_raises c); [reflexivity|].
  destruct (received c) as [text|]; [|reflexivity].
  destruct (String.eqb _ _), (send_raises c), (close_raises c); reflexivity.
Qed.

Lemma serve_all_cons (c : connection) (cs : list connection) :
  serve_all (c :: cs) =
  if is_stop c then serve c
  else let '(tr, out) := serve_all cs in (fst (serve c) ++ tr, out).
Proof.
  simpl. pose proof (serve_is_stop c) as H.
  destruct (serve c) as [tr out]. simpl in H. subst out.
  destruct (is_stop c); reflexivity.
Qed.

(** X13. The control thread ends the process only through a "stop" that
    was received, answered and closed without an exception, and then with
    exit code 0; connections that raise or carry other text never end it,
    and connections after that "stop" are not served. *)
Theorem control_loop_exit (cs : list connection) :
  snd (serve_all cs) = (if existsb is_stop cs then Exit 0 else Return) /\
  forall cs1 c cs2,
    cs = cs1 ++ c :: cs2 -> is_stop c = true -> serve_all cs = serve_all (cs1 ++ [c]).
Proof.
  split.
  - induction cs as [|c cs IH]; [reflexivity|].
    rewrite serve_all_cons. simpl existsb.
    destruct (is_stop c) eqn:Hc; simpl.
    + rewrite serve_is_stop, Hc. reflexivity.
    + destruct (serve_all cs) as [tr out]. exact IH.
  - intros cs1 c cs2 -> Hc. induction cs1 as [|c1 cs1 IH].
    + simpl app. rewrite !serve_all_cons, Hc. reflexivity.
    + rewrite <- !app_comm_cons, !serve_all_cons.
      destruct (is_stop c1); [reflexivity|]. rewrite IH. reflexivity.
Qed.

(** *** Whitespace and letter case *)

Lemma isspace_lower_char (c : ascii) :
  PyStr.isspace c = true -> PyStr.lower_char c = c.
Proof.
  destruct c as [[] [] [] [] [] [] [] []]; vm_compute; intros H;
    (reflexivity || discriminate).
Qed.

Lemma lstrip_blank_app (ws s : string) :
  blank ws = true -> PyStr.lstrip (ws +:+ s) = PyStr.lstrip s.
Proof.
  induction ws as [|c ws IH]; intros H; [reflexivity|].
  simpl in H. apply andb_true_iff in H as [Hc Hws].
  change (PyStr.lstrip (String c (ws +:+ s)) = PyStr.lstrip s).
  simpl. rewrite Hc. apply IH. exact Hws.
Qed.

Lemma rstrip_blank (ws : string) : blank ws = true -> PyStr.rstrip ws = EmptyString.
Proof.
  induction ws as [|c ws IH]; intros H; [reflexivity|].
  simpl in H. apply andb_true_iff in H as [Hc Hws].
  simpl. rewrite (IH Hws), Hc. reflexivity.
Qed.

Lemma rstrip_app_blank (s ws : string) :
  blank ws = true -> PyStr.rstrip (s +:+ ws) = PyStr.rstrip s.
Proof.
  intros H. induction s as [|c s IH].
  - change (PyStr.rstrip ws = EmptyString). apply rstrip_blank. exact H.
  - change (PyStr.rstrip (String c (s +:+ ws)) = PyStr.rstrip (String c s)).
    simpl. rewrite IH. reflexivity.
Qed.

Lemma lower_char_not_space (c d : ascii) :
  PyStr.lower_char c = d -> PyStr.isspace d = false -> PyStr.isspace c = false.
Proof.
  intros Hl Hd. destruct (PyStr.isspace c) eqn:Hc; [|reflexivity].
  rewrite (isspace_lower_char c Hc) in Hl. congruence.
Qed.

Lemma strip_stop_word (ws1 word ws2 : string) :
  blank ws1 = true -> blank ws2 = true -> PyStr.lower word = "stop" ->
  PyStr.strip (ws1 +:+ word +:+ ws2) = word.
Proof.
  intros H1 H2 Hw.
  destruct word as [|a [|b [|c [|d [|x w]]]]]; try discriminate.
  simpl in Hw. injection Hw as Ha Hb Hc Hd.
  pose proof (lower_char_not_space a _ Ha eq_refl) as Hsa.
  pose proof (lower_char_not_space d _ Hd eq_refl) as Hsd.
  unfold PyStr.strip. rewrite (lstrip_blank_app ws1 _ H1).
  change (PyStr.rstrip
            (PyStr.lstrip (String a (String b (String c (String d EmptyString)) +:+ ws2)))
          = String a (String b (String c (String d EmptyString)))).
  simpl PyStr.lstrip. rewrite Hsa.
  change (PyStr.rstrip (String a (String b (String c (String d EmptyString))) +:+ ws2)
          = String a (String b (String c (String d EmptyString)))).
  rewrite (rstrip_app_blank _ ws2 H2).
  simpl. rewrite Hsd. reflexivity.
Qed.

(** X14. The stop command is recognized in any letter case and with any
    amount of whitespace (spaces, tabs, line ends) before and after it:
    such a text, received on a connection whose calls do not raise, is
    answered with "stopping" and ends the process with exit code 0. *)
Theorem stop_ignores_case_and_blanks (ws1 word ws2 : string) :
  blank ws1 = true -> blank ws2 = true -> PyStr.lower word = "stop" ->
  serve (delivers (ws1 +:+ word +:+ ws2)) =
    ([Send "stopping"; Close; Print "Stop command received, exiting."], Exit 0).
Proof.
  intros H1 H2 Hw. unfold serve, delivers. simpl.
  rewrite (strip_stop_word ws1 word ws2 H1 H2 Hw), Hw. reflexivity.
Qed.

Lemma stop_ignores_case_and_blanks_witness :
  let tab := String (ascii_of_nat 9) EmptyString in
  let crlf := String (ascii_of_nat 13) (String (ascii_of_nat 10) EmptyString) in
  blank (" " +:+ tab) = true /\ blank crlf = true /\ PyStr.lower "sToP" = "stop" /\
  serve (delivers ((" " +:+ tab) +:+ "sToP" +:+ crlf)) =
    ([Send "stopping"; Close; Print "Stop command received, exiting."], Exit 0).
Proof.
  intros tab crlf.
  split; [reflexivity|]. split; [reflexivity|]. split; [reflexivity|].
  exact (stop_ignores_case_and_blanks (" " +:+ tab) "sToP" crlf
           eq_refl eq_refl eq_refl).
Defined.

End ControlLoopFacts.

Module LauncherFacts.
Import Launcher.
Local Open Scope string_scope.
Local Open Scope list_scope.

Lemma genlock_app_is_genlock (n : string) :
  PyStr.contains "genlock_app" n = true -> PyStr.contains "genlock" n = true.
Proof. apply VoiceThreadFacts.contains_trans. reflexivity. Qed.

Lemma scan_result (own : Z) (procs : list process) (p : process) :
  scan own procs = Some p ->
  exists pre post,
    procs = pre ++ p :: post /\ scan own pre = None /\
    info_raises p = false /\
    (mentions_core p = true \/
     (PyStr.contains "genlock" (lowered_name p) = true /\ pid p <> own)).
Proof.
  induction procs as [|proc rest IH]; [discriminate|].
  assert (scan own rest = Some p ->
          scan own [proc] = None ->
          exists pre post,
            proc :: rest = pre ++ p :: post /\ scan own pre = None /\
            info_raises p = false /\
            (mentions_core p = true \/
             (PyStr.contains "genlock" (lowered_name p) = true /\ pid p <> own)))
    as Hskip.
  { intros Hrest Hone. destruct (IH Hrest) as (pre & post & -> & Hpre & Hinfo & Hm).
    exists (proc :: pre), post. split; [reflexivity|]. split; [|auto].
    revert Hone. simpl.
    destruct (info_raises proc); [intros _; exact Hpre|].
    destruct (cmdline_mentions_core proc); [discriminate|].
    destruct (PyStr.contains "genlock_core" (lowered_name proc)); [discriminate|].
    destruct (PyStr.contains "genlock_app" (lowered_name proc)
              || PyStr.contains "genlock" (lowered_name proc));
      [|intros _; exact Hpre].
    destruct (negb (pid proc =? own)%Z); [discriminate | intros _; exact Hpre]. }
  simpl. simpl in Hskip.
  destruct (info_raises proc) eqn:Hinfo; [intros H; apply Hskip; auto|].
  unfold mentions_core.
  destruct (cmdline_mentions_core proc) eqn:Hcmd.
  { intros [= <-]. exists [], rest. rewrite Hcmd. auto. }
  destruct (PyStr.contains "genlock_core" (lowered_name proc)) eqn:Hcore.
  { intros [= <-]. exists [], rest. rewrite Hcmd, Hcore. auto. }
  destruct (PyStr.contains "genlock_app" (lowered_name proc)
            || PyStr.contains "genlock" (lowered_name proc)) eqn:Hname;
    [|intros H; apply Hskip; auto].
  destruct (Z.eqb_spec (pid proc) own) as [Heq | Hne]; simpl;
    [intros H; apply Hskip; auto|].
  intros [= <-]. exists [], rest. split; [reflexivity|]. split; [reflexivity|].
  split; [exact Hinfo|]. right. split; [|exact Hne].
  apply orb_true_iff in Hname as [H | H]; [apply genlock_app_is_genlock|]; exact H.
Qed.

(** X15. What [find_genlock_process] returns. Without psutil it finds
    nothing. Otherwise the entry returned is the first of the process list
    that is selected (no earlier entry is); reading it did not raise; and it
    either names genlock_core in its command line or name, or has "genlock"
    in its lowercased name and is not the launcher's own process. So the
    launcher reports itself only if its own entry names genlock_core. *)
Theorem find_genlock_process_result
    (psutil : bool) (own : Z) (procs : list process) (p : process) :
  find_genlock_process psutil own procs = Some p ->
  psutil = true /\
  (exists pre post,
     procs = pre ++ p :: post /\ find_genlock_process psutil own pre = None) /\
  info_raises p = false /\
  (mentions_core p = true \/
   (PyStr.contains "genlock" (lowered_name p) = true /\ pid p <> own)) /\
  (pid p = own -> mentions_core p = true).
Proof.
  unfold find_genlock_process. destruct psutil; [|discriminate].
  intros H. destruct (scan_result own procs p H)
    as (pre & post & Hsplit & Hpre & Hinfo & Hm).
  split; [reflexivity|]. split; [eauto|]. split; [exact Hinfo|].
  split; [exact Hm|].
  intros Hown. destruct Hm as [Hm | [_ Hne]]; [exact Hm | contradiction].
Qed.

Lemma find_genlock_process_result_witness :
  find_genlock_process true 100 [launcher_entry; core_entry] = Some core_entry /\
  (exists pre post,
     [launcher_entry; core_entry] = pre ++ core_entry :: post /\
     find_genlock_process true 100 pre = None) /\
  mentions_core core_entry = true.
Proof.
  assert (find_genlock_process true 100 [launcher_entry; core_entry] = Some core_entry)
    as H by reflexivity.
  destruct (find_genlock_process_result true 100 _ _ H) as (_ & Hfirst & _ & _ & _).
  split; [exact H|]. split; [exact Hfirst | reflexivity].
Defined.

(** X16. [stop_genlock] signals nothing but the process that
    [find_genlock_process] returned; it kills only after a [terminate] that
    did not raise and a wait of 3 seconds that timed out; and it shows
    "Stopped" exactly when a process was found, [terminate] did not raise,
    and either the process went away in time or the kill did not raise. *)
Theorem stop_genlock_is_careful (psutil : bool) (own : Z) (procs : list process)
    (terminate_raises : bool) (wait : wait_end) (kill_raises : bool) :
  let acts := stop_genlock psutil own procs terminate_raises wait kill_raises in
  (forall victim, In (Terminate victim) acts \/ In (Kill victim) acts ->
     exists p, find_genlock_process psutil own procs = Some p /\ pid p = victim) /\
  (forall victim, In (Kill victim) acts ->
     terminate_raises = false /\ wait = TimeoutExpired /\
     exists rest, acts = Terminate victim :: Wait victim 3 :: Kill victim :: rest) /\
  (In (SetStatus "Stopped" "#ff3b30") acts <->
     (exists p, find_genlock_process psutil own procs = Some p) /\
     terminate_raises = false /\
     (wait = Gone \/ (wait = TimeoutExpired /\ kill_raises = false))).
Proof.
  unfold stop_genlock.
  destruct psutil; simpl negb; cbv iota.
  2:{ split; [|split].
      - intros v [[H | []] | [H | []]]; discriminate.
      - intros v [H | []]; discriminate.
      - split; [intros [H | []]; discriminate | intros ([p Hp] & _); discriminate]. }
  destruct (find_genlock_process true own procs) as [p|].
  2:{ split; [|split].
      - intros v [[H | []] | [H | []]]; discriminate.
      - intros v [H | []]; discriminate.
      - split; [intros [H | []]; discriminate | intros ([p Hp] & _); discriminate]. }
  destruct terminate_raises, wait, kill_raises; simpl;
    (split; [|split]);
    try (intros v Hv; exists p; split; [reflexivity|];
         intuition (try discriminate; congruence));
    try (intros v Hv;
         intuition (try discriminate; try congruence);
         match goal with H : Kill _ = Kill _ |- _ => injection H as <- end;
         eexists; reflexivity);
    try (split; [intros Hs | intros (_ & Ht & Hw)];
         intuition (try discriminate; try congruence; eauto)).
Qed.

Lemma stop_genlock_is_careful_witness :
  let acts := stop_genlock true 100 [launcher_entry; core_entry]
                false TimeoutExpired false in
  In (Kill 200) acts /\
  acts = [Terminate 200; Wait 200 3; Kill 200; SetStatus "Stopped" "#ff3b30"] /\
  exists p, find_genlock_process true 100 [launcher_entry; core_entry] = Some p
            /\ pid p = 200.
Proof.
  intros acts.
  assert (In (Kill 200) acts) as Hk by (subst acts; simpl; auto).
  split; [exact Hk|]. split; [reflexivity|].
  destruct (stop_genlock_is_careful true 100 [launcher_entry; core_entry]
              false TimeoutExpired false) as (Hsig & _ & _).
  exact (Hsig 200 (or_intror Hk)).
Defined.

End LauncherFacts.

Module ClassifierFacts.
Import Classifier.

Lemma is_finger_extended_some (pts : list point) (tip pip mcp : nat) :
  (tip < length pts)%nat -> (pip < length pts)%nat -> (mcp < length pts)%nat ->
  exists b, is_finger_extended pts tip pip mcp = Some b.
Proof.
  intros Ht Hp Hm. unfold is_finger_extended.
  destruct (lookup_lt_is_Some_2 pts tip Ht) as [a ->].
  destruct (lookup_lt_is_Some_2 pts pip Hp) as [b ->].
  destruct (lookup_lt_is_Some_2 pts mcp Hm) as [c ->].
  eauto.
Qed.

Lemma is_finger_extended_none (pts : list point) (tip pip mcp : nat) :
  (length pts <= tip)%nat -> is_finger_extended pts tip pip mcp = None.
Proof.
  intros H. unfold is_finger_extended. rewrite (lookup_ge_None_2 pts tip H).
  reflexivity.
Qed.

Lemma is_closed_fist_raises (pts : list point) :
  is_closed_fist pts = None <-> (length pts < 21)%nat.
Proof.
  split.
  - intros H. destruct (Nat.lt_ge_cases (length pts) 21) as [Hlt | Hge]; [exact Hlt|].
    exfalso. revert H. unfold is_closed_fist, fingers, finger_checks.
    destruct (is_finger_extended_some pts 8 6 5) as [b1 ->]; try lia.
    destruct (is_finger_extended_some pts 12 10 9) as [b2 ->]; try lia.
    destruct (is_finger_extended_some pts 16 14 13) as [b3 ->]; try lia.
    destruct (is_finger_extended_some pts 20 18 17) as [b4 ->]; try lia.
    destruct (is_finger_extended_some pts 4 3 2) as [b5 ->]; try lia.
    discriminate.
  - intros H. unfold is_closed_fist, fingers, finger_checks.
    rewrite (is_finger_extended_none pts 20 18 17) by lia.
    destruct (is_finger_extended pts 8 6 5); [|reflexivity].
    destruct (is_finger_extended pts 12 10 9); [|reflexivity].
    destruct (is_finger_extended pts 16 14 13); reflexivity.
Qed.

(** X17. [is_closed_fist] raises [IndexError] exactly when it is given
    fewer than 21 landmarks. The main loop turns that, like a frame without
    any hand, into "no gesture": such a frame never counts as a fist and
    never stops the loop. *)
Theorem short_landmark_list_is_no_gesture (pts : list point) :
  (is_closed_fist pts = None <-> (length pts < 21)%nat) /\
  ((length pts < 21)%nat -> forall others, gesture_detected (Some (pts :: others)) = false) /\
  gesture_detected None = false /\ gesture_detected (Some []) = false.
Proof.
  split; [apply is_closed_fist_raises|]. split; [|split; reflexivity].
  intros H others. simpl. rewrite (proj2 (is_closed_fist_raises pts) H). reflexivity.
Qed.

Lemma short_landmark_list_is_no_gesture_witness :
  let pts := repeat (320, 240) 20 in
  (length pts < 21)%nat /\ is_closed_fist pts = None /\
  gesture_detected (Some [pts]) = false.
Proof.
  intros pts.
  assert (length pts < 21)%nat as H by (subst pts; simpl; lia).
  destruct (short_landmark_list_is_no_gesture pts) as (Hiff & Hno & _).
  split; [exact H|]. split; [exact (proj2 Hiff H) | exact (Hno H [])].
Defined.

Lemma sub_self (p : point) : sub p p = (0, 0).
Proof. unfold sub. rewrite !Z.sub_diag. reflexivity. Qed.

Lemma coincident_finger (pts : list point) (tip pip mcp : nat) (p : point) :
  pts !! tip = Some p -> pts !! pip = Some p -> pts !! mcp = Some p ->
  is_finger_extended pts tip pip mcp = Some false.
Proof.
  intros Ht Hp Hm. unfold is_finger_extended. rewrite Ht, Hp, Hm, sub_self.
  reflexivity.
Qed.

(** X18. A hand in which the tip, pip and mcp landmarks of each finger
    fall on one pixel (a hand far from the camera, say) is classified as a
    closed fist: no finger counts as extended, since no distance exceeds
    1.05 times another that is equally zero. *)
Theorem coincident_joints_are_a_fist (pts : list point) :
  joints_coincide pts ->
  is_closed_fist pts = Some true /\
  forall others, gesture_detected (Some (pts :: others)) = true.
Proof.
  intros H.
  assert (forall tip pip mcp, In (tip, pip, mcp) ((4, 3, 2)%nat :: fingers) ->
            is_finger_extended pts tip pip mcp = Some false) as Hf.
  { intros tip pip mcp Hin. destruct (H tip pip mcp Hin) as (p & Ht & Hp & Hm).
    eapply coincident_finger; eauto. }
  assert (is_closed_fist pts = Some true) as Hfist.
  { unfold is_closed_fist, fingers, finger_checks.
    rewrite (Hf 8 6 5)%nat by (simpl; auto 10).
    rewrite (Hf 12 10 9)%nat by (simpl; auto 10).
    rewrite (Hf 16 14 13)%nat by (simpl; auto 10).
    rewrite (Hf 20 18 17)%nat by (simpl; auto 10).
    rewrite (Hf 4 3 2)%nat by (simpl; auto 10).
    reflexivity. }
  split; [exact Hfist|]. intros others. simpl. rewrite Hfist. reflexivity.
Qed.

Lemma coincident_joints_are_a_fist_witness :
  let pts := repeat (320, 240) 21 in
  joints_coincide pts /\ is_closed_fist pts = Some true /\
  gesture_detected (Some [pts]) = true.
Proof.
  intros pts.
  assert (joints_coincide pts) as H.
  { intros tip pip mcp Hin. exists (320, 240). simpl in Hin.
    destruct Hin as [Heq | [Heq | [Heq | [Heq | [Heq | []]]]]];
      injection Heq as <- <- <-; repeat split; reflexivity. }
  destruct (coincident_joints_are_a_fist pts H) as [Hfist Hg].
  split; [exact H|]. split; [exact Hfist | exact (Hg [])].
Defined.

End ClassifierFacts.

Module SessionFacts.
Import Main Session.
Local Open Scope string_scope.
Local Open Scope list_scope.

Lemma executor_iff_exit_witness :
  Controller.executor_invoked (fst (main true Controller.quiet_linux fist_ticks)) = true /\
  snd (main true Controller.quiet_linux fist_ticks) = Exited 0.
Proof.
  assert (snd (main true Controller.quiet_linux fist_ticks) = Exited 0) as H
    by (vm_compute; reflexivity).
  split; [|exact H].
  exact (proj2 (LoopFacts.executor_iff_exit true Controller.quiet_linux fist_ticks) H).
Defined.

Lemma control_loop_exit_witness :
  let cs := [Instance.delivers "status"; Instance.delivers "STOP";
             Instance.delivers "stop"] in
  snd (Instance.serve_all cs) = Exit 0 /\
  Instance.serve_all cs
  = Instance.serve_all [Instance.delivers "status"; Instance.delivers "STOP"].
Proof.
  intros cs.
  destruct (ControlLoopFacts.control_loop_exit cs) as [Hout Hcut].
  split; [exact Hout|].
  exact (Hcut [Instance.delivers "status"] (Instance.delivers "STOP")
           [Instance.delivers "stop"] eq_refl eq_refl).
Defined.

(** A session without speech, pass by pass, follows the stabilizer. *)
Lemma loop_gesture_only (env : Controller.environment) (ts : list tick) :
  forall (s : state) (st' : Stabilizer.state) (log : list Stabilizer.frame_out),
  Forall gesture_only ts ->
  action_q s = [] -> last_lock_time s = Controller.initial_last_lock_time ->
  Stabilizer.run (stabilizer s) (map frame ts) = Ok (st', log) ->
  exists tr,
    loop env s ts =
      (tr, if some_emitted log then SystemExit 0
           else Next {| stabilizer := st'; action_q := [];
                        last_lock_time := Controller.initial_last_lock_time |}).
Proof.
  induction ts as [|t ts IH]; intros s st' log Hall Hq Hl Hrun.
  - simpl in Hrun. injection Hrun as <- <-. exists []. simpl.
    destruct s as [st q l]. simpl in *. subst. reflexivity.
  - apply Forall_cons in Hall as [(Hret & Hkey & Hb & Ha & Hd) Hall].
    simpl map in Hrun.
    apply StabilizerFacts.run_cons in Hrun as (s1 & o & os & Hstep & Hrun & ->).
    simpl loop. unfold pass.
    rewrite Hret, Hb, Ha, Hq, Hl, Hstep, Hkey. simpl negb. cbv iota.
    simpl Voice.voice_iterations. cbv iota beta.
    unfold some_emitted. simpl existsb.
    destruct (Stabilizer.emitted o) eqn:He.
    + simpl Voice.voice_iterations. cbv iota beta.
      unfold process_action, ActionQueue.put. simpl.
      destruct (ControllerFacts.lock_workstation_accepts env (lock_now t) _ Hd)
        as (tr1 & -> & _).
      eexists. reflexivity.
    + simpl Voice.voice_iterations. cbv iota beta.
      unfold process_action. simpl.
      destruct (IH {| stabilizer := s1; action_q := [];
                      last_lock_time := Controller.initial_last_lock_time |}
                  st' os Hall eq_refl eq_refl Hrun) as (tr & ->).
      eexists. reflexivity.
Qed.

(** X19. In a session without speech the program locks exactly when the
    gesture stabilizer confirms the fist: if the stabilizer, run over the
    frames of the session, emits on some frame, the main script has invoked
    the lock path and ended with [sys.exit(0)]; if it emits on none, the
    loop is still running with an empty queue. *)
Theorem gesture_session_locks_iff_emitted (env : Controller.environment)
    (ts : list tick) (st' : Stabilizer.state) (log : list Stabilizer.frame_out) :
  Forall gesture_only ts ->
  Stabilizer.run Stabilizer.init (map frame ts) = Ok (st', log) ->
  snd (main true env ts) =
    if some_emitted log then Exited 0
    else Looping {| stabilizer := st'; action_q := [];
                    last_lock_time := Controller.initial_last_lock_time |}.
Proof.
  intros Hall Hrun. unfold main. simpl negb. cbv iota.
  destruct (loop_gesture_only env ts init st' log Hall eq_refl eq_refl Hrun)
    as (tr & ->).
  destruct (some_emitted log); reflexivity.
Qed.

Lemma gesture_session_locks_iff_emitted_witness :
  Forall gesture_only fist_ticks /\
  exists st' log,
    Stabilizer.run Stabilizer.init (map frame fist_ticks) = Ok (st', log) /\
    some_emitted log = true /\
    snd (main true Controller.quiet_linux fist_ticks) = Exited 0.
Proof.
  assert (Forall gesture_only fist_ticks) as Hall.
  { unfold fist_ticks. apply Forall_map. apply Forall_forall. intros f _.
    repeat split; reflexivity. }
  split; [exact Hall|].
  destruct (Stabilizer.run Stabilizer.init (map frame fist_ticks))
    as [[st' log]|] eqn:Hrun; [|vm_compute in Hrun; discriminate].
  assert (some_emitted log = true) as He
    by (vm_compute in Hrun; injection Hrun as _ <-; reflexivity).
  exists st', log. split; [reflexivity|]. split; [exact He|].
  pose proof (gesture_session_locks_iff_emitted Controller.quiet_linux
                fist_ticks st' log Hall Hrun) as H.
  rewrite He in H. exact H.
Defined.

(** X20. A spoken trigger is acted on in the same pass: when the voice
    thread has heard, since the last poll, a transcript in which a trigger
    phrase occurs, and the debounce check passes, the pass ends in the lock
    executor and [sys.exit(0)]. *)
Theorem spoken_trigger_locks (env : Controller.environment) (s : state) (t : tick)
    (transcript : string) :
  ret t = true -> Stabilizer.well_formed (stabilizer s) ->
  In (Voice.Heard transcript) (heard_before t ++ heard_after t) ->
  VoiceThread.triggers (PyStr.lower transcript) = true ->
  Controller.debounced (lock_now t) (last_lock_time s) = false ->
  exists tr, pass env s t = (tr, SystemExit 0) /\
             Controller.executor_invoked tr = true.
Proof.
  intros Hret Hwf Hin Htrig Hd.
  assert (In ("voice", PyStr.lower transcript)
            (VoiceThread.voice_items (heard_before t)
               ++ VoiceThread.voice_items (heard_after t))) as Hitem.
  { assert (forall rs, In (Voice.Heard transcript) rs ->
              In ("voice", PyStr.lower transcript) (VoiceThread.voice_items rs)) as Hone.
    { intros rs Hrs. unfold VoiceThread.voice_items. apply in_flat_map.
      exists (Voice.Heard transcript). split; [exact Hrs|].
      rewrite Htrig. simpl. auto. }
    apply in_app_iff. apply in_app_iff in Hin as [H | H]; [left | right];
      apply Hone; exact H. }
  destruct (pass env s t) as [tr e] eqn:Hpass.
  pose proof (LoopFacts.pass_cases env s t tr e Hwf Hpass) as Hc.
  exists tr.
  assert (exists code, e = SystemExit code) as [code ->].
  { revert Hpass. unfold pass. rewrite Hret. simpl negb. cbv iota.
    pose proof (VoiceThreadFacts.voice_iterations_queue
                  (heard_before t) (action_q s)) as Hq1.
    destruct (Voice.voice_iterations (heard_before t) (action_q s)) as [q1 tr1].
    simpl in Hq1.
    destruct (StabilizerFacts.gesture_step_total (stabilizer s) (frame t) Hwf)
      as (st & o & -> & _).
    set (put := if Stabilizer.emitted o
                then (ActionQueue.put q1 ("gesture", "fist"),
                      [Print "Gesture trigger detected (fist)."])
                else (q1, [])).
    assert (exists extra, fst put = q1 ++ extra) as [extra Hq2].
    { subst put. destruct (Stabilizer.emitted o); simpl;
        [eexists; reflexivity | exists []; rewrite app_nil_r; reflexivity]. }
    destruct put as [q2 tr2]. simpl in Hq2.
    pose proof (VoiceThreadFacts.voice_iterations_queue (heard_after t) q2) as Hq3.
    destruct (Voice.voice_iterations (heard_after t) q2) as [q3 tr3].
    simpl in Hq3.
    destruct (process_action env (lock_now t) q3 (last_lock_time s))
      as [[[q4 last] tr4] out] eqn:Hact.
    apply LoopFacts.process_action_cases in Hact as (_ & Hout).
    destruct out as [|code].
    - destruct Hout as (_ & _ & [Hnil | Hdeb]); [|congruence].
      exfalso. subst q3 q2 q1.
      apply app_eq_nil in Hnil as [Hnil Hafter].
      apply app_eq_nil in Hnil as [Hnil _].
      apply app_eq_nil in Hnil as [_ Hbefore].
      rewrite Hbefore, Hafter in Hitem. destruct Hitem.
    - intros [= _ <-]. eauto. }
  destruct Hc as [-> Hx]. auto.
Qed.

Lemma spoken_trigger_locks_witness :
  let t := {| ret := true;
              frame := {| Stabilizer.gesture_detected := false; Stabilizer.now := 5 |};
              heard_before := []; heard_after := [Voice.Heard "Lock IT please"];
              lock_now := 1700000000; key_q := false |} in
  exists tr, pass Controller.quiet_linux init t = (tr, SystemExit 0) /\
             Controller.executor_invoked tr = true.
Proof.
  intros t.
  exact (spoken_trigger_locks Controller.quiet_linux init t "Lock IT please"
           eq_refl StabilizerFacts.init_well_formed
           (or_introl eq_refl) eq_refl eq_refl).
Defined.

End SessionFacts.

Module AppScriptFacts.
Import AppScript.
Local Open Scope string_scope.
Local Open Scope list_scope.

(** The block of [Instance.startup] is this guard, the bind raising when
    the port table holds the port. *)
Lemma startup_is_guard (ports : gset Z) :
  (snd (fst (Instance.startup ports)), snd (Instance.startup ports))
  = guard (bool_decide (Instance._SINGLETON_PORT ∈ ports)).
Proof.
  unfold Instance.startup, Instance.bind_listen, guard.
  destruct (bool_decide (Instance._SINGLETON_PORT ∈ ports)); reflexivity.
Qed.

(** Whenever the window could be opened, the guard is reached only after
    the launcher's main loop has been entered and left. *)
Lemma guard_follows_mainloop (psutil : bool) (own : Z) (evs : list gui_event)
    (bind_raises : bool) :
  fst (genlock_app true psutil own evs bind_raises) =
  [BuildWindow; After 500; EnterMainloop] ++ mainloop psutil own evs
    ++ [LeaveMainloop] ++ map Block (fst (guard bind_raises)).
Proof. unfold genlock_app. simpl. destruct (guard bind_raises). reflexivity. Qed.

(** C7 fails on [genlock_app.py], the one file that has the guard. Started
    while the singleton port is held (the bind of line 135 raises), with
    the status timer firing once and the button clicked once before the
    window is closed, the script builds the window, runs the main loop and
    starts a worker thread; only then does it reach the guard, print the
    message and leave with exit code 0. So the second instance does exit
    with code 0 and does not start the control thread, but it does not exit
    immediately, before any thread or main loop. *)
Theorem second_launcher_runs_main_loop_first :
  let run := genlock_app true true 100
               [Timer [Launcher.launcher_entry]; Click [Launcher.launcher_entry]]
               true in
  run = ([BuildWindow; After 500; EnterMainloop;
          Status "Not running" "white"; ButtonLabel "Start GenLock" "#00b894";
          After 1000;
          Spawn "start_genlock_background";
          LeaveMainloop;
          Block (Print "Another GenLock instance is already running. Exiting.")],
         0)
  /\ existsb starts_thread_or_loop (fst run) = true
  /\ existsb starts_thread_or_loop
       (map Block (fst (guard true))) = false.
Proof. repeat split; reflexivity. Qed.

End AppScriptFacts.
